(** * The chat widget's send pipeline (frontend/chatbot-ui/src/Chat.jsx)

    A shallow embedding of the [Chat] component: its three [useState] cells,
    the asynchronous function [sendMessage], the event handlers of the
    rendered tree, and the facts of the specification that concern them.

    Conventions of the model.
    - A JavaScript string is its sequence of UTF-16 code units.
    - [sendMessage] is an [async] function: it is embedded as a resumption,
      a finite tree whose nodes are the effects of the function in program
      order and whose [await] nodes carry the rest of the function as a
      continuation of the settled promise.
    - The hooks are React's: a [setState] call with an updater function
      stores the function, and React applies it to the previous value.  An
      updater that throws does so inside React, not inside the function that
      passed it: React discards the exception at the call and raises it
      again when it renders, which tears the component down.
    - Every handler runs against the last committed render (React flushes
      the updates of one discrete event before it dispatches the next).
    - The wire is kept at the level of values: a request body is the value
      handed to [JSON.stringify], and [res.json()] settles with the parsed
      value or rejects.
    - The scroll effect of [useEffect] and the rendering of [Message] read
      the cells and write none of them; they are left out. *)

From Stdlib Require Import String Ascii.
From Stdlib Require Import List Bool Arith NArith ZArith Lia.
From Stdlib Require Import Floats.PrimFloat.
Import ListNotations.

Set Implicit Arguments.
Set Warnings "-register-all".

(** ** JavaScript values *)

Module JS.

(** A string, as its UTF-16 code units. *)
Definition jsstring := list N.

(** The code units of an ASCII literal. *)
Definition str (s : string) : jsstring :=
  map N_of_ascii (list_ascii_of_string s).

Definition jsstring_eqb (a b : jsstring) : bool :=
  if list_eq_dec N.eq_dec a b then true else false.

(** The values that reach this program: [undefined], and what [JSON.parse]
    builds.  An object is the list of its own properties in insertion
    order. *)
Inductive jsval : Type :=
| JUndefined
| JNull
| JBool (b : bool)
| JNum (x : float)
| JStr (s : jsstring)
| JArr (items : list jsval)
| JObj (props : list (jsstring * jsval)).

(** What a [throw] carries: the constructor's name and the message. *)
Record exn : Type := Exn { exn_name : jsstring; exn_message : jsstring }.

Definition Error (msg : string) : exn := Exn (str "Error") (str msg).
Definition TypeError (msg : string) : exn := Exn (str "TypeError") (str msg).

(** ECMAScript WhiteSpace and LineTerminator code points; all of them lie in
    the basic plane, so the test is on one code unit. *)
Definition is_white_space (c : N) : bool :=
  match c with
  | 0x0009 | 0x000A | 0x000B | 0x000C | 0x000D | 0x0020 | 0x00A0
  | 0x1680 | 0x2028 | 0x2029 | 0x202F | 0x205F | 0x3000 | 0xFEFF => true
  | _ => (0x2000 <=? c) && (c <=? 0x200A)
  end%N.

Fixpoint trim_start (s : jsstring) : jsstring :=
  match s with
  | c :: s' => if is_white_space c then trim_start s' else s
  | [] => []
  end.

Definition trim_end (s : jsstring) : jsstring :=
  rev (trim_start (rev s)).

(** [String.prototype.trim]. *)
Definition trim (s : jsstring) : jsstring := trim_end (trim_start s).

(** [ToBoolean] on a string: the empty string is the only falsy one. *)
Definition truthy (s : jsstring) : bool :=
  match s with [] => false | _ :: _ => true end.

(** Own-property lookup in an object. *)
Fixpoint get_own (key : jsstring) (props : list (jsstring * jsval)) : option jsval :=
  match props with
  | [] => None
  | (k, v) :: rest => if jsstring_eqb k key then Some v else get_own key rest
  end.

(** The member access [v.reply].  On [undefined] and [null] it throws a
    TypeError; on an object it reads the property, [undefined] when there is
    none; strings, arrays, numbers and booleans have no property of that
    name on themselves or their prototypes. *)
Definition get_reply (v : jsval) : exn + jsval :=
  match v with
  | JUndefined =>
      inl (TypeError "Cannot read properties of undefined (reading 'reply')")
  | JNull =>
      inl (TypeError "Cannot read properties of null (reading 'reply')")
  | JObj props =>
      match get_own (str "reply") props with
      | Some x => inr x
      | None => inr JUndefined
      end
  | JBool _ | JNum _ | JStr _ | JArr _ => inr JUndefined
  end.

End JS.
Import JS.

(** ** The component's state *)

(** A record of the conversation, [{ role, text }].  The role is whatever
    string the code writes; the text is whatever value it stores. *)
Record Message : Type := mkMessage { role : jsstring; text : jsval }.

(** The three [useState] cells of [Chat]. *)
Record State : Type := mkState {
  messages : list Message;
  input : jsstring;
  loading : bool
}.

Definition API_URL : jsstring := str "http://127.0.0.1:8000/chat".

(** The greeting ends in U+1F32A U+FE0F, a surrogate pair and a variation
    selector. *)
Definition greeting : jsstring :=
  str "Hello! I'm your Enterprise Data Assistant.How can I help you? "
    ++ [0xD83C; 0xDF2A; 0xFE0F]%N.

(** The text of the catch block's record begins with U+26A0 U+FE0F. *)
Definition fallback_text : jsstring :=
  [0x26A0; 0xFE0F]%N
    ++ str " **System Error:** Unable to reach the backend. Is the server running?".

(** The arguments of the three [useState] calls. *)
Definition initial_state : State :=
  {| messages := [ {| role := str "bot"; text := JStr greeting |} ];
     input := [];
     loading := false |}.

(** An updater function passed to [setMessages]; applying it can throw. *)
Definition updater := list Message -> exn + list Message.

(** [prev => [...prev, { role: "user", text: userText }]] *)
Definition append_user (userText : jsstring) : updater :=
  fun prev => inr (prev ++ [ {| role := str "user"; text := JStr userText |} ]).

(** [prev => [...prev, { role: "bot", text: data.reply }]]: the member access
    is part of the function's body, evaluated when the updater is applied. *)
Definition append_reply (data : jsval) : updater :=
  fun prev =>
    match get_reply data with
    | inr reply => inr (prev ++ [ {| role := str "bot"; text := reply |} ])
    | inl e => inl e
    end.

(** [prev => [...prev, { role: "bot", text: "... System Error ..." }]] *)
Definition append_fallback : updater :=
  fun prev => inr (prev ++ [ {| role := str "bot"; text := JStr fallback_text |} ]).

(** ** The network interface *)

(** The text [JSON.stringify] produces, kept as the value it serialises. *)
Inductive json_text : Type := JSON_stringify (v : jsval).

Record Request : Type := mkRequest {
  url : jsstring;
  method : jsstring;
  headers : list (jsstring * jsstring);
  body : json_text
}.

(** A response, as far as the code looks at it: [ok] is derived from the
    status as the Fetch standard defines it. *)
Record Response : Type := mkResponse { status : Z }.

Definition ok (res : Response) : bool :=
  ((200 <=? status res) && (status res <=? 299))%Z.

(** How a promise settles. *)
Inductive Settled (A : Type) : Type :=
| Fulfilled (a : A)
| Rejected (e : exn).
Arguments Rejected {A} e.

(** ** Asynchronous functions as resumptions *)

Module Async.

(** The effects of an [async] function of this component, in program order.
    [Fetch] and [Json] are the two [await] points: each carries the rest of
    the function, which resumes when the awaited promise settles. *)
Inductive prog (A : Type) : Type :=
| Ret (a : A)
| Throw (e : exn)
| SetMessages (u : updater) (k : prog A)
| SetInput (v : jsstring) (k : prog A)
| SetLoading (b : bool) (k : prog A)
| Fetch (req : Request) (k : Settled Response -> prog A)
| Json (res : Response) (k : Settled jsval -> prog A).
Arguments Throw {A} e.

Fixpoint bind {A B : Type} (p : prog A) (f : A -> prog B) : prog B :=
  match p with
  | Ret a => f a
  | Throw e => Throw e
  | SetMessages u k => SetMessages u (bind k f)
  | SetInput v k => SetInput v (bind k f)
  | SetLoading b k => SetLoading b (bind k f)
  | Fetch req k => Fetch req (fun r => bind (k r) f)
  | Json res k => Json res (fun r => bind (k r) f)
  end.

(** [try { p } catch (e) { h e }] *)
Fixpoint try_catch {A : Type} (p : prog A) (h : exn -> prog A) : prog A :=
  match p with
  | Ret a => Ret a
  | Throw e => h e
  | SetMessages u k => SetMessages u (try_catch k h)
  | SetInput v k => SetInput v (try_catch k h)
  | SetLoading b k => SetLoading b (try_catch k h)
  | Fetch req k => Fetch req (fun r => try_catch (k r) h)
  | Json res k => Json res (fun r => try_catch (k r) h)
  end.

(** [try { p } finally { f }]: [f] runs on both completions of [p], and the
    completion of [p] stands unless [f] throws itself. *)
Fixpoint try_finally {A : Type} (p : prog A) (f : prog unit) : prog A :=
  match p with
  | Ret a => bind f (fun _ => Ret a)
  | Throw e => bind f (fun _ => Throw e)
  | SetMessages u k => SetMessages u (try_finally k f)
  | SetInput v k => SetInput v (try_finally k f)
  | SetLoading b k => SetLoading b (try_finally k f)
  | Fetch req k => Fetch req (fun r => try_finally (k r) f)
  | Json res k => Json res (fun r => try_finally (k r) f)
  end.

(** [await]: a fulfilled promise gives its value, a rejected one throws at
    the [await]. *)
Definition resume {A : Type} (r : Settled A) : prog A :=
  match r with
  | Fulfilled a => Ret a
  | Rejected e => Throw e
  end.

Definition setMessages (u : updater) : prog unit := SetMessages u (Ret tt).
Definition setInput (v : jsstring) : prog unit := SetInput v (Ret tt).
Definition setLoading (b : bool) : prog unit := SetLoading b (Ret tt).
Definition await_fetch (req : Request) : prog Response := Fetch req resume.
Definition await_json (res : Response) : prog jsval := Json res resume.

End Async.
Import Async.

Declare Scope async_scope.
Delimit Scope async_scope with async.
Notation "x <- p ;; q" := (bind p (fun x => q))
  (at level 61, p at next level, right associativity) : async_scope.
Notation "p ;; q" := (bind p (fun _ => q))
  (at level 61, right associativity) : async_scope.
Local Open Scope async_scope.

(** ** The code of the component *)

(** The options object of the [fetch] call. *)
Definition chat_request (userText : jsstring) : Request :=
  {| url := API_URL;
     method := str "POST";
     headers := [ (str "Content-Type", str "application/json") ];
     body := JSON_stringify (JObj [ (str "message", JStr userText) ]) |}.

(** [sendMessage], closed over the [input] and [loading] of the render that
    created it. *)
Definition sendMessage (input : jsstring) (loading : bool) : prog unit :=
  if negb (truthy (trim input)) || loading then Ret tt
  else
    let userText := input in
    setMessages (append_user userText) ;;
    setInput [] ;;
    setLoading true ;;
    try_finally
      (try_catch
         (res <- await_fetch (chat_request userText) ;;
          if negb (ok res) then Throw (Error "Network Error")
          else
            data <- await_json res ;;
            setMessages (append_reply data))
         (fun _ => setMessages append_fallback))
      (setLoading false).

(** [handleKeyDown]; [preventDefault] acts on the DOM event only and leaves
    no mark on the component. *)
Definition handleKeyDown (input : jsstring) (loading : bool)
    (key : jsstring) (shiftKey : bool) : prog unit :=
  if jsstring_eqb key (str "Enter") && negb shiftKey
  then sendMessage input loading
  else Ret tt.

(** The [disabled] attribute of the send button. *)
Definition send_disabled (s : State) : bool :=
  loading s || negb (truthy (trim (input s))).

(** ** Running the component *)

(** The component is mounted with the values of its cells, or has been torn
    down by an exception raised while React rendered it. *)
Inductive Component : Type :=
| Mounted (s : State)
| Unmounted (e : exn).

(** A suspended activation of an async function: the promise it awaits and
    the code that follows the [await]. *)
Inductive Task : Type :=
| AwaitingFetch (req : Request) (k : Settled Response -> prog unit)
| AwaitingJson (res : Response) (k : Settled jsval -> prog unit).

(** What the code called, in call order. *)
Inductive Call : Type :=
| CallSetMessages (u : updater)
| CallSetInput (v : jsstring)
| CallSetLoading (b : bool)
| CallFetch (req : Request)
| CallJson (res : Response).

Record World : Type := mkWorld {
  ui : Component;
  tasks : list Task;        (* suspended activations, oldest first *)
  calls : list Call;        (* every call made so far *)
  unhandled : list exn      (* rejections of promises nobody awaits *)
}.

(** React applying an updater of the [messages] cell.  A mounted component
    whose updater throws is torn down; an unmounted one ignores the call. *)
Definition apply_messages (u : updater) (c : Component) : Component :=
  match c with
  | Mounted s =>
      match u (messages s) with
      | inr ms => Mounted {| messages := ms; input := input s; loading := loading s |}
      | inl e => Unmounted e
      end
  | Unmounted e => Unmounted e
  end.

Definition apply_input (v : jsstring) (c : Component) : Component :=
  match c with
  | Mounted s => Mounted {| messages := messages s; input := v; loading := loading s |}
  | Unmounted e => Unmounted e
  end.

Definition apply_loading (b : bool) (c : Component) : Component :=
  match c with
  | Mounted s => Mounted {| messages := messages s; input := input s; loading := b |}
  | Unmounted e => Unmounted e
  end.

Definition called (c : Call) (ui' : Component) (w : World) : World :=
  {| ui := ui'; tasks := tasks w; calls := calls w ++ [c]; unhandled := unhandled w |}.

(** Runs an activation until it returns, throws, or reaches an [await].
    Nobody awaits the promise of [sendMessage], so a throw is an unhandled
    rejection. *)
Fixpoint exec (p : prog unit) (w : World) : World :=
  match p with
  | Ret _ => w
  | Throw e =>
      {| ui := ui w; tasks := tasks w; calls := calls w;
         unhandled := unhandled w ++ [e] |}
  | SetMessages u k => exec k (called (CallSetMessages u) (apply_messages u (ui w)) w)
  | SetInput v k => exec k (called (CallSetInput v) (apply_input v (ui w)) w)
  | SetLoading b k => exec k (called (CallSetLoading b) (apply_loading b (ui w)) w)
  | Fetch req k =>
      {| ui := ui w; tasks := tasks w ++ [AwaitingFetch req k];
         calls := calls w ++ [CallFetch req]; unhandled := unhandled w |}
  | Json res k =>
      {| ui := ui w; tasks := tasks w ++ [AwaitingJson res k];
         calls := calls w ++ [CallJson res]; unhandled := unhandled w |}
  end.

(** What can happen to the page. *)
Inductive Event : Type :=
| Change (v : jsstring)                        (* onChange of the textarea *)
| KeyDown (key : jsstring) (shiftKey : bool)   (* onKeyDown of the textarea *)
| Click                                        (* onClick of the send button *)
| FetchSettled (i : nat) (r : Settled Response)  (* the promise of task i settles *)
| JsonSettled (i : nat) (r : Settled jsval).

(** Takes task [i] out of the list. *)
Fixpoint take_task (i : nat) (ts : list Task) {struct ts}
    : option (Task * list Task) :=
  match ts, i with
  | [], _ => None
  | t :: rest, O => Some (t, rest)
  | t :: rest, S j =>
      match take_task j rest with
      | Some (x, rest') => Some (x, t :: rest')
      | None => None
      end
  end.

Definition with_tasks (ts : list Task) (w : World) : World :=
  {| ui := ui w; tasks := ts; calls := calls w; unhandled := unhandled w |}.

(** One event; [None] when the event cannot happen in this world (no DOM to
    act on, a disabled button, no such pending promise). *)
Definition step (ev : Event) (w : World) : option World :=
  match ev with
  | Change v =>
      match ui w with
      | Mounted _ => Some (exec (setInput v) w)
      | Unmounted _ => None
      end
  | KeyDown key shiftKey =>
      match ui w with
      | Mounted s => Some (exec (handleKeyDown (input s) (loading s) key shiftKey) w)
      | Unmounted _ => None
      end
  | Click =>
      match ui w with
      | Mounted s =>
          if send_disabled s then None
          else Some (exec (sendMessage (input s) (loading s)) w)
      | Unmounted _ => None
      end
  | FetchSettled i r =>
      match take_task i (tasks w) with
      | Some (AwaitingFetch _ k, rest) => Some (exec (k r) (with_tasks rest w))
      | _ => None
      end
  | JsonSettled i r =>
      match take_task i (tasks w) with
      | Some (AwaitingJson _ k, rest) => Some (exec (k r) (with_tasks rest w))
      | _ => None
      end
  end.

Fixpoint run (evs : list Event) (w : World) : option World :=
  match evs with
  | [] => Some w
  | ev :: rest =>
      match step ev w with
      | Some w' => run rest w'
      | None => None
      end
  end.

(** The page after mounting. *)
Definition initial_world : World :=
  {| ui := Mounted initial_state; tasks := []; calls := []; unhandled := [] |}.

(** A direct call of [sendMessage] from the current render. *)
Definition call_sendMessage (w : World) : World :=
  match ui w with
  | Mounted s => exec (sendMessage (input s) (loading s)) w
  | Unmounted _ => w
  end.

(** The conversation on display, when there is one. *)
Definition conversation (w : World) : option (list Message) :=
  match ui w with
  | Mounted s => Some (messages s)
  | Unmounted _ => None
  end.

(** The requests issued so far. *)
Fixpoint requests (cs : list Call) : list Request :=
  match cs with
  | [] => []
  | CallFetch req :: rest => req :: requests rest
  | _ :: rest => requests rest
  end.

(** ** The shape of a send *)

(** The two ways an activation ends: one record for the conversation, then
    the finally block. *)
Definition reply_close (data : jsval) : prog unit :=
  SetMessages (append_reply data) (SetLoading false (Ret tt)).

Definition fallback_close : prog unit :=
  SetMessages append_fallback (SetLoading false (Ret tt)).

(** The code after [await res.json()]. *)
Definition json_cont (k : Settled jsval -> prog unit) : Prop :=
  (forall e, k (Rejected e) = fallback_close) /\
  (forall data, k (Fulfilled data) = reply_close data).

(** The code after [await fetch(...)]. *)
Definition fetch_cont (k : Settled Response -> prog unit) : Prop :=
  (forall e, k (Rejected e) = fallback_close) /\
  (forall res, ok res = false -> k (Fulfilled res) = fallback_close) /\
  (forall res, ok res = true ->
     exists k', k (Fulfilled res) = Json res k' /\ json_cont k').

(** A task that a send left behind. *)
Definition pending_send (t : Task) : Prop :=
  match t with
  | AwaitingFetch _ k => fetch_cont k
  | AwaitingJson _ k => json_cont k
  end.

(** The precondition of line 21, on the values the render closed over. *)
Definition can_send (s : State) : Prop :=
  truthy (trim (input s)) = true /\ loading s = false.

(** An activation that returns normally whatever the network answers. *)
Fixpoint never_throws (p : prog unit) : Prop :=
  match p with
  | Ret _ => True
  | Throw _ => False
  | SetMessages _ k | SetInput _ k | SetLoading _ k => never_throws k
  | Fetch _ k => forall r, never_throws (k r)
  | Json _ k => forall r, never_throws (k r)
  end.

(** A failed delivery: [fetch] rejected, or a status outside 200..299. *)
Definition delivery_failed (r : Settled Response) : Prop :=
  match r with
  | Rejected _ => True
  | Fulfilled res => ok res = false
  end.

Fixpoint count_set_loading (b : bool) (cs : list Call) : nat :=
  match cs with
  | [] => 0
  | CallSetLoading b' :: rest =>
      (if Bool.eqb b b' then 1 else 0) + count_set_loading b rest
  | _ :: rest => count_set_loading b rest
  end.

(** The spec's wording of the fallback text, for comparison with
    [fallback_text]. *)
Definition spec_fallback_wording : jsstring :=
  str "System Error: Unable to reach the backend. Is the server running?".

(** The calls of a passing send up to its first [await]. *)
Definition send_calls (s : State) : list Call :=
  [ CallSetMessages (append_user (input s)); CallSetInput [];
    CallSetLoading true; CallFetch (chat_request (input s)) ].

(** The cells after the synchronous part of a passing send. *)
Definition sent_state (s : State) : State :=
  {| messages := messages s ++ [ {| role := str "user"; text := JStr (input s) |} ];
     input := [];
     loading := true |}.

(** The component after the activation closed with a bot record. *)
Definition closed_state (s : State) (bot_text : jsval) : Component :=
  Mounted
    {| messages := messages s
                     ++ [ {| role := str "user"; text := JStr (input s) |};
                          {| role := str "bot"; text := bot_text |} ];
       input := [];
       loading := false |}.

(** World [w] after a passing send from cells [s] that went on to make the
    calls [more], leaving component [c] and the tasks [ts]. *)
Definition world_after_send (w : World) (s : State) (more : list Call)
    (c : Component) (ts : list Task) : World :=
  {| ui := c;
     tasks := tasks w ++ ts;
     calls := calls w ++ send_calls s ++ more;
     unhandled := unhandled w |}.

(** The world a list of events leads to from the initial one. *)
Definition world_after (evs : list Event) : World :=
  match run evs initial_world with
  | Some w => w
  | None => initial_world
  end.


(** The cells of a mounted component. *)
Definition cells (w : World) : State :=
  match ui w with
  | Mounted s => s
  | Unmounted _ => initial_state
  end.

(** The page after the user typed [hi]. *)
Definition typed_world : World := world_after [ Change (str "hi") ].

(** The page while the request for [hi] is outstanding and the user has
    typed again. *)
Definition busy_world : World :=
  world_after [ Change (str "hi"); Click; Change (str "more") ].

(** ** What holds in every world the page can reach *)

(** The records of a conversation relate as an append of at most one. *)
Definition extends_by_one (ms ms' : list Message) : Prop :=
  ms' = ms \/
  exists m, ms' = ms ++ [m] /\ (role m = str "user" \/ role m = str "bot").

Definition append_only (c c' : Component) : Prop :=
  match c, c' with
  | Mounted s, Mounted s' => extends_by_one (messages s) (messages s')
  | Unmounted _, Mounted _ => False
  | _, Unmounted _ => True
  end.

Definition settled_inv (w : World) : Prop :=
  unhandled w = [] /\
  count_set_loading true (calls w) = length (requests (calls w)) /\
  count_set_loading false (calls w) + length (tasks w) = length (requests (calls w)) /\
  match ui w with
  | Mounted s =>
      length (messages s) + length (tasks w) = 2 * length (requests (calls w)) + 1 /\
      match tasks w with
      | [] => loading s = false
      | [t] => loading s = true /\ pending_send t
      | _ => False
      end
  | Unmounted _ => tasks w = []
  end.

(** ** The rendered tree *)

(** [messages.map((m, i) => ...)]: the callback sees each element with its
    index. *)
Fixpoint map_from {A B : Type} (f : A -> nat -> B) (i : nat) (l : list A) : list B :=
  match l with
  | [] => []
  | a :: l' => f a i :: map_from f (S i) l'
  end.

Module Render.

(** The two icons of [lucide-react] that [Message] uses. *)
Inductive Icon : Type := Bot | User.

(** What the bubble of a row holds: the three animated dots, or the
    Markdown rendering of [text]. *)
Inductive Bubble : Type :=
| TypingIndicator
| MarkdownContent (children : jsval).

(** The props of a [<Message>] element, with its React key.  A prop that the
    element does not pass is [undefined]: [JUndefined] for [text], falsy for
    [typing]. *)
Record Props : Type := mkProps {
  key : option nat;
  role : jsstring;
  text : jsval;
  typing : bool
}.

(** What [Message] returns, as far as it depends on the props. *)
Record Element : Type := mkElement {
  row_className : jsstring;
  avatar_className : jsstring;
  avatar_icon : Icon;
  bubble : Bubble
}.

(** The component [Message]. *)
Definition Message (props : Props) : Element :=
  let isBot := jsstring_eqb (role props) (str "bot") in
  {| row_className := str "message-row " ++ role props;
     avatar_className :=
       str "avatar " ++ (if isBot then str "bot-avatar" else str "user-avatar");
     avatar_icon := if isBot then Bot else User;
     bubble := if typing props then TypingIndicator else MarkdownContent (text props) |}.

(** What [Chat] returns, as far as it depends on the cells: the [<Message>]
    children of [chat-body], the [value] of the textarea and the [disabled]
    attribute of the send button. *)
Record ChatView : Type := mkChatView {
  chat_body : list Props;
  textarea_value : jsstring;
  send_btn_disabled : bool
}.

(** The return statement of [Chat]. *)
Definition Chat (s : State) : ChatView :=
  {| chat_body :=
       map_from (fun m i =>
                   let '(mkMessage r t) := m in
                   {| key := Some i; role := r; text := t; typing := false |})
                0 (messages s)
       ++ (if loading s
           then [ {| key := None; role := str "bot"; text := JUndefined; typing := true |} ]
           else []);
     textarea_value := input s;
     send_btn_disabled := send_disabled s |}.

End Render.

(** ** The protocol of the component *)

(** A string that has a code unit other than white space. *)
Definition has_ink (x : jsstring) : bool :=
  existsb (fun c => negb (is_white_space c)) x.

Definition greeting_record : Message :=
  {| role := str "bot"; text := JStr greeting |}.

(** A completed exchange: what the user sent and what the bot record says. *)
Definition exchange (p : jsstring * jsval) : list Message :=
  [ {| role := str "user"; text := JStr (fst p) |};
    {| role := str "bot"; text := snd p |} ].

(** The record of a send that is still waiting for its answer. *)
Definition pending_record (p : option jsstring) : list Message :=
  match p with
  | Some u => [ {| role := str "user"; text := JStr u |} ]
  | None => []
  end.

Definition pending_text (p : option jsstring) : list jsstring :=
  match p with
  | Some u => [u]
  | None => []
  end.

Definition is_pending (p : option jsstring) : bool :=
  match p with Some _ => true | None => false end.

(** The requests that the user records of a conversation stand for. *)
Fixpoint requests_of (ms : list Message) : list Request :=
  match ms with
  | [] => []
  | m :: rest =>
      if jsstring_eqb (role m) (str "user")
      then match text m with
           | JStr t => chat_request t :: requests_of rest
           | _ => requests_of rest
           end
      else requests_of rest
  end.

(** The text of the bot record with which a settlement closes a send. *)
Definition settles (ev : Event) (bot_text : jsval) : Prop :=
  match ev with
  | FetchSettled 0 r => delivery_failed r /\ bot_text = JStr fallback_text
  | JsonSettled 0 (Rejected _) => bot_text = JStr fallback_text
  | JsonSettled 0 (Fulfilled data) => get_reply data = inr bot_text
  | _ => False
  end.

(** The moves of the page, by the event that causes them. *)
Inductive transition : Event -> World -> World -> Prop :=
| t_ignored (ev : Event) (w : World) :
    (exists key shiftKey, ev = KeyDown key shiftKey) ->
    transition ev w w
| t_typed (v : jsstring) (w : World) (s : State) :
    ui w = Mounted s ->
    transition (Change v) w
      {| ui := Mounted {| messages := messages s; input := v; loading := loading s |};
         tasks := tasks w;
         calls := calls w ++ [CallSetInput v];
         unhandled := unhandled w |}
| t_sent (ev : Event) (w : World) (s : State) (k : Settled Response -> prog unit) :
    ev = Click \/ ev = KeyDown (str "Enter") false ->
    ui w = Mounted s -> can_send s -> tasks w = [] -> fetch_cont k ->
    transition ev w
      {| ui := Mounted (sent_state s);
         tasks := [AwaitingFetch (chat_request (input s)) k];
         calls := calls w ++ send_calls s;
         unhandled := unhandled w |}
| t_answered (w : World) (s : State) (req : Request) (k : Settled Response -> prog unit)
    (res : Response) (k' : Settled jsval -> prog unit) :
    ui w = Mounted s -> loading s = true -> tasks w = [AwaitingFetch req k] ->
    ok res = true -> json_cont k' ->
    transition (FetchSettled 0 (Fulfilled res)) w
      {| ui := Mounted s;
         tasks := [AwaitingJson res k'];
         calls := calls w ++ [CallJson res];
         unhandled := unhandled w |}
| t_closed (ev : Event) (w : World) (s : State) (t : Task) (u : updater)
    (bot_text : jsval) :
    settles ev bot_text ->
    ui w = Mounted s -> loading s = true -> tasks w = [t] ->
    transition ev w
      {| ui := Mounted {| messages := messages s
                                        ++ [ {| role := str "bot"; text := bot_text |} ];
                          input := input s;
                          loading := false |};
         tasks := [];
         calls := calls w ++ [CallSetMessages u; CallSetLoading false];
         unhandled := unhandled w |}
| t_torn_down (w : World) (s : State) (t : Task) (data : jsval) (e : exn) :
    get_reply data = inl e ->
    ui w = Mounted s -> loading s = true -> tasks w = [t] ->
    transition (JsonSettled 0 (Fulfilled data)) w
      {| ui := Unmounted e;
         tasks := [];
         calls := calls w ++ [CallSetMessages (append_reply data); CallSetLoading false];
         unhandled := unhandled w |}.

(** The conversation of a mounted component is the greeting, the completed
    exchanges, and the user's record of the send that is waiting, if one is;
    the requests issued are those of these sends, in order. *)
Definition conversation_inv (w : World) : Prop :=
  match ui w with
  | Mounted s =>
      exists (done : list (jsstring * jsval)) (pending : option jsstring),
        messages s = greeting_record :: flat_map exchange done ++ pending_record pending /\
        requests (calls w) = map chat_request (map fst done ++ pending_text pending) /\
        loading s = is_pending pending
  | Unmounted _ => True
  end.

(** The page in the middle of its second exchange. *)
Definition second_send_world : World :=
  world_after
    [ Change (str "hi"); Click;
      FetchSettled 0 (Fulfilled {| status := 200 |});
      JsonSettled 0 (Fulfilled (JObj [ (str "reply", JStr (str "hello")) ]));
      Change (str "again"); Click ].

(** The page after the user typed [hi] between two blanks. *)
Definition padded_world : World := world_after [ Change (str " hi ") ].

(** * Lemmas *)

Unset Implicit Arguments.

(** Unfolds one run of [exec] and the record projections it leaves. *)
Ltac exec_simpl :=
  cbn [exec apply_messages apply_input apply_loading
       ui tasks calls unhandled messages input loading
       setMessages setInput setLoading append_user append_fallback];
  unfold called, with_tasks;
  cbn [apply_messages apply_input apply_loading
       ui tasks calls unhandled messages input loading].

Lemma sendMessage_guard (inp : jsstring) (ld : bool) :
  ld = true \/ trim inp = [] -> sendMessage inp ld = Ret tt.
Proof.
  unfold sendMessage. intros [-> | ->].
  - now rewrite orb_true_r.
  - reflexivity.
Qed.

Lemma sendMessage_passes (inp : jsstring) :
  truthy (trim inp) = true ->
  exists k,
    sendMessage inp false =
      SetMessages (append_user inp)
        (SetInput [] (SetLoading true (Fetch (chat_request inp) k)))
    /\ fetch_cont k.
Proof.
  intros H. unfold sendMessage. rewrite H. cbn.
  eexists. split; [reflexivity|].
  repeat split.
  - intros res Hok. cbn. now rewrite Hok.
  - intros res Hok. cbn. rewrite Hok. cbn.
    eexists. split; [reflexivity|]. split; reflexivity.
Qed.

Lemma take_task_last (ts : list Task) (t : Task) :
  take_task (length ts) (ts ++ [t]) = Some (t, ts).
Proof.
  induction ts as [|a ts IH]; cbn; [reflexivity|]. now rewrite IH.
Qed.

Lemma requests_app (a b : list Call) :
  requests (a ++ b) = requests a ++ requests b.
Proof.
  induction a as [|c a IH]; cbn; [reflexivity|].
  destruct c; cbn; now rewrite IH.
Qed.

Lemma count_set_loading_app (b : bool) (x y : list Call) :
  count_set_loading b (x ++ y) = count_set_loading b x + count_set_loading b y.
Proof.
  induction x as [|c x IH]; cbn; [reflexivity|].
  destruct c; cbn; rewrite IH; lia.
Qed.

(** The world a passing send leaves behind. *)
Lemma call_sendMessage_passes (w : World) (s : State) :
  ui w = Mounted s -> can_send s ->
  exists k,
    fetch_cont k /\
    call_sendMessage w =
      {| ui := Mounted {| messages := messages s
                            ++ [ {| role := str "user"; text := JStr (input s) |} ];
                          input := [];
                          loading := true |};
         tasks := tasks w ++ [AwaitingFetch (chat_request (input s)) k];
         calls := calls w ++ [CallSetMessages (append_user (input s))]
                    ++ [CallSetInput []] ++ [CallSetLoading true]
                    ++ [CallFetch (chat_request (input s))];
         unhandled := unhandled w |}.
Proof.
  intros Hui [Hin Hld]. unfold call_sendMessage. rewrite Hui, Hld.
  destruct (sendMessage_passes _ Hin) as (k & -> & Hk).
  exists k. split; [assumption|]. exec_simpl. rewrite Hui. exec_simpl.
  now rewrite <- !app_assoc.
Qed.

(** Running the two closing stretches on a mounted, busy component. *)
Lemma exec_fallback_close (w : World) (s : State) :
  ui w = Mounted s ->
  exec fallback_close w =
    {| ui := Mounted {| messages := messages s
                          ++ [ {| role := str "bot"; text := JStr fallback_text |} ];
                        input := input s;
                        loading := false |};
       tasks := tasks w;
       calls := calls w ++ [CallSetMessages append_fallback] ++ [CallSetLoading false];
       unhandled := unhandled w |}.
Proof.
  intros Hui. unfold fallback_close. exec_simpl. rewrite Hui. exec_simpl.
  now rewrite <- app_assoc.
Qed.

Lemma exec_reply_close (w : World) (s : State) (data reply : jsval) :
  ui w = Mounted s -> get_reply data = inr reply ->
  exec (reply_close data) w =
    {| ui := Mounted {| messages := messages s
                          ++ [ {| role := str "bot"; text := reply |} ];
                        input := input s;
                        loading := false |};
       tasks := tasks w;
       calls := calls w ++ [CallSetMessages (append_reply data)] ++ [CallSetLoading false];
       unhandled := unhandled w |}.
Proof.
  intros Hui Hget. unfold reply_close. exec_simpl. rewrite Hui.
  unfold append_reply. rewrite Hget. exec_simpl. now rewrite <- app_assoc.
Qed.

Lemma exec_reply_close_throws (w : World) (s : State) (data : jsval) (e : exn) :
  ui w = Mounted s -> get_reply data = inl e ->
  exec (reply_close data) w =
    {| ui := Unmounted e;
       tasks := tasks w;
       calls := calls w ++ [CallSetMessages (append_reply data)] ++ [CallSetLoading false];
       unhandled := unhandled w |}.
Proof.
  intros Hui Hget. unfold reply_close. exec_simpl. rewrite Hui.
  unfold append_reply. rewrite Hget. exec_simpl. now rewrite <- app_assoc.
Qed.

Lemma truthy_false (x : jsstring) : truthy x = false -> x = [].
Proof. destruct x; [reflexivity | discriminate]. Qed.

Lemma can_send_dec (s : State) :
  {can_send s} + {loading s = true \/ trim (input s) = []}.
Proof.
  unfold can_send.
  destruct (loading s); [right; now left|].
  destruct (truthy (trim (input s))) eqn:E; [left; now split|].
  right; right. now apply truthy_false.
Qed.

Lemma call_sendMessage_blocked (w : World) (s : State) :
  ui w = Mounted s -> loading s = true \/ trim (input s) = [] ->
  call_sendMessage w = w.
Proof.
  intros Hui H. unfold call_sendMessage. rewrite Hui.
  now rewrite (sendMessage_guard _ _ H).
Qed.

Lemma call_sendMessage_exec (w : World) (s : State) :
  ui w = Mounted s ->
  exec (sendMessage (input s) (loading s)) w = call_sendMessage w.
Proof. intros Hui. unfold call_sendMessage. now rewrite Hui. Qed.

(** ** Preservation *)

Ltac split_all := repeat match goal with |- _ /\ _ => split end.
Ltac inv_arith :=
  rewrite ?requests_app, ?count_set_loading_app, ?length_app;
  cbn; split_all; try assumption; try reflexivity; try lia.


Lemma initial_inv : settled_inv initial_world.
Proof. repeat split. Qed.

(** A send from a world that satisfies the invariant. *)
Lemma call_sendMessage_inv (w : World) (s : State) :
  ui w = Mounted s -> settled_inv w ->
  settled_inv (call_sendMessage w) /\ append_only (ui w) (ui (call_sendMessage w)).
Proof.
  intros Hui Hinv.
  destruct (can_send_dec s) as [Hcan | Hno].
  - destruct (call_sendMessage_passes w s Hui Hcan) as (k & Hk & ->).
    destruct Hinv as (Hun & Ht & Hf & Hm). rewrite Hui in Hm.
    destruct Hm as [Hlen Htasks]. destruct Hcan as [_ Hld].
    destruct (tasks w) as [|t [|t' ts]] eqn:Etasks;
      [| destruct Htasks; congruence | contradiction].
    split.
    + unfold settled_inv. cbn [ui tasks calls unhandled messages loading].
      rewrite !requests_app, !count_set_loading_app, !length_app in *.
      cbn in *. inv_arith.
    + rewrite Hui. cbn. right. eexists. split; [reflexivity|]. now left.
  - rewrite (call_sendMessage_blocked w s Hui Hno). split; [assumption|].
    rewrite Hui. cbn. now left.
Qed.

(** Closing an activation whose task was the only one. *)
Lemma close_inv (w : World) (s : State) (t : Task) (p : prog unit) :
  ui w = Mounted s -> settled_inv w -> tasks w = [t] ->
  p = fallback_close \/ (exists data, p = reply_close data) ->
  settled_inv (exec p (with_tasks [] w))
  /\ append_only (ui w) (ui (exec p (with_tasks [] w))).
Proof.
  intros Hui (Hun & Ht & Hf & Hm) Etasks Hp. rewrite Hui, Etasks in *.
  destruct Hm as [Hlen _]. cbn in Hlen, Hf.
  assert (Hui' : ui (with_tasks [] w) = Mounted s) by exact Hui.
  destruct Hp as [-> | [data ->]].
  - rewrite (exec_fallback_close _ _ Hui'). split.
    + unfold settled_inv. cbn [ui tasks calls unhandled messages loading with_tasks].
      inv_arith.
    + cbn. right. eexists. split; [reflexivity|]. now right.
  - destruct (get_reply data) as [e | reply] eqn:Eget.
    + rewrite (exec_reply_close_throws _ _ _ _ Hui' Eget). split; [|exact I].
      unfold settled_inv. cbn [ui tasks calls unhandled messages loading with_tasks].
      inv_arith.
    + rewrite (exec_reply_close _ _ _ _ Hui' Eget). split.
      * unfold settled_inv. cbn [ui tasks calls unhandled messages loading with_tasks].
        inv_arith.
      * cbn. right. eexists. split; [reflexivity|]. now right.
Qed.

(** In a world that satisfies the invariant only task 0 can settle. *)
Lemma take_task_inv (w : World) (i : nat) (t : Task) (rest : list Task) :
  settled_inv w -> take_task i (tasks w) = Some (t, rest) ->
  exists s, ui w = Mounted s /\ tasks w = [t] /\ rest = [] /\ pending_send t.
Proof.
  intros (_ & _ & _ & Hm) Htake.
  destruct (ui w) as [s | e].
  - destruct Hm as [_ Htasks]. exists s.
    destruct (tasks w) as [|t0 [|t1 ts]]; [discriminate | | contradiction].
    destruct i as [|j]; cbn in Htake; [|discriminate].
    injection Htake as <- <-. destruct Htasks. now split_all.
  - rewrite Hm in Htake. discriminate.
Qed.

Lemma step_inv (w w' : World) (ev : Event) :
  settled_inv w -> step ev w = Some w' ->
  settled_inv w' /\ append_only (ui w) (ui w').
Proof.
  intros Hinv Hstep. destruct ev as [v | key shift | | i r | i r]; cbn [step] in Hstep.
  - (* Change *)
    destruct (ui w) as [s | e] eqn:Hui; [|discriminate].
    injection Hstep as <-. exec_simpl. rewrite Hui. exec_simpl.
    destruct Hinv as (Hun & Ht & Hf & Hm). rewrite Hui in Hm.
    split; [|now left].
    unfold settled_inv. cbn [ui tasks calls unhandled messages loading].
    destruct Hm as [Hlen Htasks]. inv_arith.
  - (* KeyDown *)
    destruct (ui w) as [s | e] eqn:Hui; [|discriminate].
    injection Hstep as <-. unfold handleKeyDown.
    destruct (jsstring_eqb key (str "Enter") && negb shift).
    + rewrite (call_sendMessage_exec w s Hui), <- Hui.
      now apply call_sendMessage_inv with s.
    + cbn [exec]. split; [assumption|]. rewrite Hui. now left.
  - (* Click *)
    destruct (ui w) as [s | e] eqn:Hui; [|discriminate].
    destruct (send_disabled s); [discriminate|].
    injection Hstep as <-.
    rewrite (call_sendMessage_exec w s Hui), <- Hui.
    now apply call_sendMessage_inv with s.
  - (* FetchSettled *)
    destruct (take_task i (tasks w)) as [[t rest]|] eqn:Htake; [|discriminate].
    destruct (take_task_inv w i t rest Hinv Htake) as (s & Hui & Etasks & -> & Hp).
    destruct t as [req k | res k]; [|discriminate].
    injection Hstep as <-. cbn in Hp. destruct Hp as (Hrej & Hbad & Hgood).
    destruct r as [res | e].
    + destruct (ok res) eqn:Hok.
      * destruct (Hgood res Hok) as (k' & -> & Hk').
        exec_simpl. rewrite Hui.
        destruct Hinv as (Hun & Ht & Hf & Hm). rewrite Hui, Etasks in *.
        destruct Hm as [Hlen [Hld _]]. split; [|now left].
        unfold settled_inv. cbn [ui tasks calls unhandled messages loading app].
        cbn in Hf, Hlen. inv_arith.
      * rewrite (Hbad res Hok). eapply close_inv; eauto.
    + rewrite Hrej. eapply close_inv; eauto.
  - (* JsonSettled *)
    destruct (take_task i (tasks w)) as [[t rest]|] eqn:Htake; [|discriminate].
    destruct (take_task_inv w i t rest Hinv Htake) as (s & Hui & Etasks & -> & Hp).
    destruct t as [req k | res k]; [discriminate|].
    injection Hstep as <-. cbn in Hp. destruct Hp as (Hrej & Hful).
    destruct r as [data | e].
    + rewrite Hful. eapply close_inv; eauto.
    + rewrite Hrej. eapply close_inv; eauto.
Qed.

Lemma run_inv (evs : list Event) :
  forall w w', settled_inv w -> run evs w = Some w' -> settled_inv w'.
Proof.
  induction evs as [|ev evs IH]; intros w w' Hinv Hrun; cbn in Hrun.
  - now injection Hrun as <-.
  - destruct (step ev w) as [w1|] eqn:Hstep; [|discriminate].
    apply (IH w1 w'); [|assumption].
    now destruct (step_inv w w1 ev Hinv Hstep).
Qed.

Lemma reachable_inv (evs : list Event) (w : World) :
  run evs initial_world = Some w -> settled_inv w.
Proof. apply run_inv, initial_inv. Qed.

(** ** One send, from any mounted world *)

Lemma send_then_fail (w : World) (s : State) (r : Settled Response) :
  ui w = Mounted s -> can_send s -> delivery_failed r ->
  step (FetchSettled (length (tasks w)) r) (call_sendMessage w)
    = Some (world_after_send w s [CallSetMessages append_fallback; CallSetLoading false]
              (closed_state s (JStr fallback_text)) []).
Proof.
  intros Hui Hcan Hfail.
  destruct (call_sendMessage_passes w s Hui Hcan) as (k & (Hrej & Hbad & _) & ->).
  cbn [step tasks]. rewrite take_task_last.
  assert (Hk : k r = fallback_close).
  { destruct r as [res | e]; [now apply Hbad | apply Hrej]. }
  rewrite Hk. erewrite exec_fallback_close by reflexivity.
  unfold world_after_send, closed_state, send_calls, with_tasks.
  cbn [ui tasks calls unhandled messages input loading].
  now rewrite <- !app_assoc, app_nil_r.
Qed.

Lemma send_then_ok (w : World) (s : State) (res : Response) :
  ui w = Mounted s -> can_send s -> ok res = true ->
  exists k',
    json_cont k' /\
    step (FetchSettled (length (tasks w)) (Fulfilled res)) (call_sendMessage w)
      = Some (world_after_send w s [CallJson res] (Mounted (sent_state s))
                [AwaitingJson res k']).
Proof.
  intros Hui Hcan Hok.
  destruct (call_sendMessage_passes w s Hui Hcan) as (k & (_ & _ & Hgood) & ->).
  destruct (Hgood res Hok) as (k' & Hk & Hk').
  exists k'. split; [assumption|].
  cbn [step tasks]. rewrite take_task_last, Hk.
  unfold world_after_send, sent_state, send_calls. exec_simpl.
  now rewrite <- !app_assoc.
Qed.

Lemma json_then_settles (w : World) (s : State) (res : Response)
    (k' : Settled jsval -> prog unit) (r : Settled jsval) :
  json_cont k' ->
  step (JsonSettled (length (tasks w)) r)
       (world_after_send w s [CallJson res] (Mounted (sent_state s))
          [AwaitingJson res k'])
    = Some
        (match r with
         | Rejected _ =>
             world_after_send w s
               [CallJson res; CallSetMessages append_fallback; CallSetLoading false]
               (closed_state s (JStr fallback_text)) []
         | Fulfilled data =>
             world_after_send w s
               [CallJson res; CallSetMessages (append_reply data); CallSetLoading false]
               (match get_reply data with
                | inr reply => closed_state s reply
                | inl e => Unmounted e
                end) []
         end).
Proof.
  intros [Hrej Hful].
  unfold world_after_send at 1. cbn [step tasks]. rewrite take_task_last.
  destruct r as [data | e].
  - rewrite Hful. destruct (get_reply data) as [e | reply] eqn:Eget.
    + erewrite exec_reply_close_throws by (try reflexivity; eassumption).
      unfold world_after_send, with_tasks.
      cbn [ui tasks calls unhandled]. now rewrite <- !app_assoc, app_nil_r.
    + erewrite exec_reply_close by (try reflexivity; eassumption).
      unfold world_after_send, closed_state, sent_state, with_tasks.
      cbn [ui tasks calls unhandled messages input loading].
      now rewrite <- !app_assoc, app_nil_r.
  - rewrite Hrej. erewrite exec_fallback_close by reflexivity.
    unfold world_after_send, closed_state, sent_state, with_tasks.
    cbn [ui tasks calls unhandled messages input loading].
    now rewrite <- !app_assoc, app_nil_r.
Qed.

Lemma trim_start_white_space (x : jsstring) :
  forallb is_white_space x = true -> trim_start x = [].
Proof.
  induction x as [|c x IH]; cbn [forallb trim_start]; [reflexivity|].
  intros H. apply andb_prop in H as [Hc Hx]. rewrite Hc. now apply IH.
Qed.

(** A string of white space only trims to the empty string. *)
Lemma trim_white_space (x : jsstring) :
  forallb is_white_space x = true -> trim x = [].
Proof.
  intros H. unfold trim. now rewrite (trim_start_white_space x H).
Qed.

(** A send with nothing but white space in the textarea changes nothing. *)
Lemma sendMessage_noop_on_white_space (w : World) (s : State) :
  ui w = Mounted s -> forallb is_white_space (input s) = true ->
  call_sendMessage w = w.
Proof.
  intros Hui Hws. apply (call_sendMessage_blocked w s Hui).
  right. now apply trim_white_space.
Qed.

(** * The claims *)

(** C3.  When [sendMessage] is called while [loading] is true, or with an
    input that trims to the empty string, nothing happens: the world after
    the call is the world before it, so the conversation and the busy flag
    are the same, no call was made ([setLoading] and [fetch] included) and
    no request is pending.  The Enter key, which calls [sendMessage]
    whatever the state of the button, leaves the world unchanged too. *)
Theorem sendMessage_noop_when_blocked (w : World) (s : State) :
  ui w = Mounted s ->
  loading s = true \/ trim (input s) = [] ->
  call_sendMessage w = w /\
  step (KeyDown (str "Enter") false) w = Some w /\
  conversation (call_sendMessage w) = Some (messages s) /\
  requests (calls (call_sendMessage w)) = requests (calls w) /\
  tasks (call_sendMessage w) = tasks w /\
  ui (call_sendMessage w) = Mounted s.
Proof.
  intros Hui Hblocked.
  pose proof (call_sendMessage_blocked w s Hui Hblocked) as Hsame.
  rewrite Hsame. split_all; try reflexivity; try assumption.
  - cbn [step]. rewrite Hui. unfold handleKeyDown.
    replace (jsstring_eqb (str "Enter") (str "Enter") && negb false) with true
      by reflexivity.
    now rewrite (call_sendMessage_exec w s Hui), Hsame.
  - unfold conversation. now rewrite Hui.
Qed.

(** C7.  A send that passes the precondition issues one request: a POST to
    [API_URL] whose body is the JSON text of [{ message: t }], [t] being the
    input as typed (untrimmed).  However the two awaited promises settle
    afterwards, the activation issues no other request. *)
Theorem sendMessage_issues_one_post (w : World) (s : State) :
  ui w = Mounted s ->
  can_send s ->
  let req :=
    {| url := str "http://127.0.0.1:8000/chat";
       method := str "POST";
       headers := [ (str "Content-Type", str "application/json") ];
       body := JSON_stringify (JObj [ (str "message", JStr (input s)) ]) |} in
  let i := length (tasks w) in
  requests (calls (call_sendMessage w)) = requests (calls w) ++ [req] /\
  forall r, exists w1,
    step (FetchSettled i r) (call_sendMessage w) = Some w1 /\
    requests (calls w1) = requests (calls w) ++ [req] /\
    forall r' w2,
      step (JsonSettled i r') w1 = Some w2 ->
      requests (calls w2) = requests (calls w) ++ [req].
Proof.
  intros Hui Hcan req i. subst req i. split.
  - destruct (call_sendMessage_passes w s Hui Hcan) as (k & _ & ->).
    cbn [calls]. now rewrite !requests_app.
  - intros r.
    assert (Hfail : delivery_failed r \/ exists res, r = Fulfilled res /\ ok res = true).
    { destruct r as [res | e]; [|now left].
      destruct (ok res) eqn:Hok; [right; now exists res | now left]. }
    destruct Hfail as [Hfail | (res & -> & Hok)].
    + eexists. split; [exact (send_then_fail w s r Hui Hcan Hfail)|].
      split.
      * unfold world_after_send. cbn [calls]. now rewrite !requests_app.
      * intros r' w2. unfold world_after_send. cbn [step tasks].
        rewrite app_nil_r.
        assert (Hnone : forall ts, take_task (length ts) ts = None)
          by (induction ts as [|a ts IH]; cbn; [reflexivity | now rewrite IH]).
        now rewrite Hnone.
    + destruct (send_then_ok w s res Hui Hcan Hok) as (k' & Hk' & Hstep).
      eexists. split; [exact Hstep|]. split.
      * unfold world_after_send. cbn [calls]. now rewrite !requests_app.
      * intros r' w2 Hstep2.
        rewrite (json_then_settles w s res k' r' Hk') in Hstep2.
        injection Hstep2 as <-.
        destruct r'; unfold world_after_send; cbn [calls];
          now rewrite !requests_app.
Qed.

(** C1, as amended.  When the delivery fails ([fetch] rejects, or the
    response has a status outside 200..299), the send appends, after the
    user's record, a bot record whose text is the string of the catch block:
    U+26A0 U+FE0F, a space, [**System Error:**] in Markdown bold, and the
    sentence of the spec. *)
Theorem fallback_on_failed_delivery (w : World) (s : State) (r : Settled Response) :
  ui w = Mounted s ->
  can_send s ->
  delivery_failed r ->
  exists w',
    step (FetchSettled (length (tasks w)) r) (call_sendMessage w) = Some w' /\
    conversation w' =
      Some (messages s
              ++ [ {| role := str "user"; text := JStr (input s) |};
                   {| role := str "bot";
                      text := JStr ([0x26A0; 0xFE0F]%N ++
                        str " **System Error:** Unable to reach the backend. Is the server running?") |} ]).
Proof.
  intros Hui Hcan Hfail. eexists.
  split; [exact (send_then_fail w s r Hui Hcan Hfail) | reflexivity].
Qed.

(** C4.  When the response is a success and its body parses to an object
    whose [reply] property is [X], the bot record appended after the user's
    record has [X] itself as its text. *)
Theorem reply_round_trip (w : World) (s : State) (res : Response)
    (props : list (jsstring * jsval)) (X : jsval) :
  ui w = Mounted s ->
  can_send s ->
  ok res = true ->
  get_own (str "reply") props = Some X ->
  exists w1 w2,
    step (FetchSettled (length (tasks w)) (Fulfilled res)) (call_sendMessage w) = Some w1 /\
    step (JsonSettled (length (tasks w)) (Fulfilled (JObj props))) w1 = Some w2 /\
    conversation w2 =
      Some (messages s
              ++ [ {| role := str "user"; text := JStr (input s) |};
                   {| role := str "bot"; text := X |} ]).
Proof.
  intros Hui Hcan Hok Hget.
  destruct (send_then_ok w s res Hui Hcan Hok) as (k' & Hk' & Hstep).
  eexists. eexists. split; [exact Hstep|].
  split; [exact (json_then_settles w s res k' _ Hk')|].
  cbn [get_reply]. rewrite Hget. reflexivity.
Qed.

(** The part of C2 that holds: a passing send appends the user's record at
    once, and one bot record when the promises settle, for every way they
    settle other than a body whose [reply] cannot be read. *)
Lemma send_appends_user_then_bot (w : World) (s : State) :
  ui w = Mounted s ->
  can_send s ->
  conversation (call_sendMessage w)
    = Some (messages s ++ [ {| role := str "user"; text := JStr (input s) |} ]) /\
  forall r, exists w1,
    step (FetchSettled (length (tasks w)) r) (call_sendMessage w) = Some w1 /\
    (delivery_failed r ->
       conversation w1 =
         Some (messages s ++ [ {| role := str "user"; text := JStr (input s) |};
                               {| role := str "bot"; text := JStr fallback_text |} ])) /\
    (~ delivery_failed r ->
       conversation w1 = conversation (call_sendMessage w) /\
       forall r', exists w2,
         step (JsonSettled (length (tasks w)) r') w1 = Some w2 /\
         match r' with
         | Rejected _ =>
             conversation w2 =
               Some (messages s ++ [ {| role := str "user"; text := JStr (input s) |};
                                     {| role := str "bot"; text := JStr fallback_text |} ])
         | Fulfilled data =>
             forall reply, get_reply data = inr reply ->
               conversation w2 =
                 Some (messages s ++ [ {| role := str "user"; text := JStr (input s) |};
                                       {| role := str "bot"; text := reply |} ])
         end).
Proof.
  intros Hui Hcan. split.
  - now destruct (call_sendMessage_passes w s Hui Hcan) as (k & _ & ->).
  - intros r. destruct r as [res | e].
    + destruct (ok res) eqn:Hok.
      * destruct (send_then_ok w s res Hui Hcan Hok) as (k' & Hk' & Hstep).
        eexists. split; [exact Hstep|]. split.
        { cbn [delivery_failed]. congruence. }
        intros _. split.
        { now destruct (call_sendMessage_passes w s Hui Hcan) as (k & _ & ->). }
        intros r'. eexists. split; [exact (json_then_settles w s res k' r' Hk')|].
        destruct r' as [data | e]; [|reflexivity].
        intros reply Hget. unfold world_after_send, conversation. cbn [ui].
        now rewrite Hget.
      * eexists. split; [exact (send_then_fail w s (Fulfilled res) Hui Hcan Hok)|].
        split; [reflexivity|]. intros Hn. now destruct Hn.
    + eexists. split; [exact (send_then_fail w s (Rejected e) Hui Hcan I)|].
      split; [reflexivity|]. intros Hn. now destruct Hn.
Qed.

(** C2, at the input where the code departs from it.  The page is fresh,
    the user types [hi] and presses Enter, the server answers 200 with the
    body [null].  The body parses, so the try block passes
    [prev => [...prev, { role: "bot", text: data.reply }]] to [setMessages]
    and completes; [data.reply] is evaluated only when React applies that
    function, outside the try block, and throws a TypeError there.  No bot
    record follows the user's record: the component is torn down and the
    conversation is gone. *)
Theorem null_body_leaves_no_bot_record :
  let evs :=
    [ Change (str "hi");
      KeyDown (str "Enter") false;
      FetchSettled 0 (Fulfilled {| status := 200 |});
      JsonSettled 0 (Fulfilled JNull) ] in
  run evs initial_world = Some (world_after evs) /\
  ui (world_after evs)
    = Unmounted (TypeError "Cannot read properties of null (reading 'reply')") /\
  conversation (world_after evs) = None /\
  tasks (world_after evs) = [] /\
  unhandled (world_after evs) = [].
Proof. vm_compute. now split_all. Qed.

(** The parts of C10 that hold.  A success whose body does not parse ends
    in the catch block. *)
Lemma unparsable_body_gives_fallback (w : World) (s : State) (res : Response) (e : exn) :
  ui w = Mounted s -> can_send s -> ok res = true ->
  exists w1 w2,
    step (FetchSettled (length (tasks w)) (Fulfilled res)) (call_sendMessage w) = Some w1 /\
    step (JsonSettled (length (tasks w)) (Rejected e)) w1 = Some w2 /\
    conversation w2 =
      Some (messages s ++ [ {| role := str "user"; text := JStr (input s) |};
                            {| role := str "bot"; text := JStr fallback_text |} ]).
Proof.
  intros Hui Hcan Hok.
  destruct (send_then_ok w s res Hui Hcan Hok) as (k' & Hk' & Hstep).
  eexists. eexists. split; [exact Hstep|].
  split; [exact (json_then_settles w s res k' _ Hk') | reflexivity].
Qed.

(** A body that parses to an object without a [reply] property, or to an
    array, a string, a number or a boolean, gives a bot record whose text is
    [undefined]. *)
Lemma missing_reply_gives_undefined (w : World) (s : State) (res : Response) (data : jsval) :
  ui w = Mounted s -> can_send s -> ok res = true ->
  data <> JNull -> data <> JUndefined ->
  (forall props, data = JObj props -> get_own (str "reply") props = None) ->
  exists w1 w2,
    step (FetchSettled (length (tasks w)) (Fulfilled res)) (call_sendMessage w) = Some w1 /\
    step (JsonSettled (length (tasks w)) (Fulfilled data)) w1 = Some w2 /\
    conversation w2 =
      Some (messages s ++ [ {| role := str "user"; text := JStr (input s) |};
                            {| role := str "bot"; text := JUndefined |} ]).
Proof.
  intros Hui Hcan Hok Hnull Hundef Hprops.
  destruct (send_then_ok w s res Hui Hcan Hok) as (k' & Hk' & Hstep).
  eexists. eexists. split; [exact Hstep|].
  split; [exact (json_then_settles w s res k' _ Hk')|].
  destruct data; try congruence; cbn [get_reply]; try reflexivity.
  now rewrite (Hprops props eq_refl).
Qed.

(** C10, at the input where the code departs from it.  After one complete
    exchange the user sends again and the server answers 200 with the body
    [null]: a body that parses and has no [reply].  No bot record with an
    [undefined] text is appended, and no fallback either: reading
    [data.reply] throws inside the updater when React applies it, and the
    component is torn down with the records of the first exchange. *)
Theorem null_body_is_not_an_undefined_reply :
  let first :=
    [ Change (str "hi"); Click;
      FetchSettled 0 (Fulfilled {| status := 200 |});
      JsonSettled 0 (Fulfilled (JObj [ (str "reply", JStr (str "hello")) ])) ] in
  let second :=
    [ Change (str "again"); Click;
      FetchSettled 0 (Fulfilled {| status := 200 |});
      JsonSettled 0 (Fulfilled JNull) ] in
  conversation (world_after first)
    = Some [ {| role := str "bot"; text := JStr greeting |};
             {| role := str "user"; text := JStr (str "hi") |};
             {| role := str "bot"; text := JStr (str "hello") |} ] /\
  run (first ++ second) initial_world = Some (world_after (first ++ second)) /\
  conversation (world_after (first ++ second)) = None /\
  ui (world_after (first ++ second))
    = Unmounted (TypeError "Cannot read properties of null (reading 'reply')").
Proof. vm_compute. now split_all. Qed.

(** C1 as the spec words it fails: after a rejected [fetch] the bot record
    carries the string of the catch block, which is not the spec's sentence
    (it starts with a warning sign and marks [System Error:] as bold). *)
Lemma fallback_differs_from_spec_wording :
  let evs :=
    [ Change (str "hi"); Click;
      FetchSettled 0 (Rejected (TypeError "Failed to fetch")) ] in
  run evs initial_world = Some (world_after evs) /\
  conversation (world_after evs)
    = Some [ {| role := str "bot"; text := JStr greeting |};
             {| role := str "user"; text := JStr (str "hi") |};
             {| role := str "bot"; text := JStr fallback_text |} ] /\
  JStr fallback_text <> JStr spec_fallback_wording.
Proof.
  cbv zeta. split_all; [vm_compute; reflexivity | vm_compute; reflexivity |].
  intros H. vm_compute in H. discriminate H.
Qed.

(** C5.  In every world the page can reach at most one activation of
    [sendMessage] is suspended, and while the component is mounted [loading]
    is true exactly when one is.  [setLoading(true)] has been called once per
    request issued and [setLoading(false)] once per request that is no
    longer outstanding, whichever way it ended.  A passing send calls
    [setLoading(true)] after its guard and just before [fetch]. *)
Theorem busy_flag_tracks_outstanding_request (evs : list Event) (w : World) :
  run evs initial_world = Some w ->
  length (tasks w) <= 1 /\
  (forall s, ui w = Mounted s -> (loading s = true <-> length (tasks w) = 1)) /\
  count_set_loading true (calls w) = length (requests (calls w)) /\
  count_set_loading false (calls w) + length (tasks w) = length (requests (calls w)) /\
  (forall s, ui w = Mounted s -> can_send s ->
     calls (call_sendMessage w) =
       calls w ++ [ CallSetMessages (append_user (input s)); CallSetInput [];
                    CallSetLoading true; CallFetch (chat_request (input s)) ] /\
     ui (call_sendMessage w) = Mounted (sent_state s) /\
     length (tasks (call_sendMessage w)) = 1).
Proof.
  intros Hrun. destruct (reachable_inv evs w Hrun) as (_ & Ht & Hf & Hm).
  split_all; try assumption.
  - destruct (ui w) as [s | e].
    + destruct Hm as [_ Htasks].
      destruct (tasks w) as [|t [|t' ts]]; cbn; [lia | lia | contradiction].
    + rewrite Hm. cbn. lia.
  - intros s Hui. rewrite Hui in Hm. destruct Hm as [_ Htasks].
    destruct (tasks w) as [|t [|t' ts]]; cbn; [| | contradiction].
    + rewrite Htasks. split; discriminate.
    + destruct Htasks as [-> _]. now split.
  - intros s Hui Hcan.
    destruct (call_sendMessage_passes w s Hui Hcan) as (k & _ & ->).
    cbn [calls ui tasks]. rewrite Hui in Hm. destruct Hm as [_ Htasks].
    destruct Hcan as [_ Hld].
    destruct (tasks w) as [|t [|t' ts]]; [| destruct Htasks; congruence | contradiction].
    now split_all.
Qed.

(** The part of C6 that holds while the component stays mounted: between
    two consecutive worlds that both show a conversation, the later one is
    the earlier one or has one more record at its end, whose role is [user]
    or [bot]; a component that has been torn down shows no conversation
    again. *)
Lemma conversation_append_only_while_mounted (evs : list Event) (w w' : World) (ev : Event) :
  run evs initial_world = Some w ->
  step ev w = Some w' ->
  (forall ms ms', conversation w = Some ms -> conversation w' = Some ms' ->
     ms' = ms \/
     exists m, ms' = ms ++ [m] /\ (role m = str "user" \/ role m = str "bot")) /\
  (conversation w = None -> conversation w' = None).
Proof.
  intros Hrun Hstep.
  destruct (step_inv w w' ev (reachable_inv evs w Hrun) Hstep) as [_ Happ].
  unfold conversation, append_only in *.
  destruct (ui w) as [s | e], (ui w') as [s' | e']; split;
    try discriminate; try contradiction; try reflexivity.
  intros ms ms' [= <-] [= <-]. exact Happ.
Qed.

(** C8.  [sendMessage] returns normally whatever the network answers: no
    path through it ends in a throw, and in every world the page can reach
    no rejection is left unhandled.  A failed delivery is turned into a bot
    record of the conversation. *)
Theorem sendMessage_never_throws :
  (forall inp ld, never_throws (sendMessage inp ld)) /\
  (forall evs w, run evs initial_world = Some w -> unhandled w = []) /\
  (forall w s r, ui w = Mounted s -> can_send s -> delivery_failed r ->
     exists w' m,
       step (FetchSettled (length (tasks w)) r) (call_sendMessage w) = Some w' /\
       unhandled w' = unhandled w /\
       role m = str "bot" /\
       conversation w' =
         Some (messages s ++ [ {| role := str "user"; text := JStr (input s) |}; m ])).
Proof.
  split_all.
  - intros inp ld. unfold sendMessage.
    destruct (negb (truthy (trim inp)) || ld); [exact I|].
    cbn. intros [res | e]; cbn; [|exact I].
    destruct (ok res); cbn; [|exact I].
    intros [data | e]; exact I.
  - intros evs w Hrun. now destruct (reachable_inv evs w Hrun).
  - intros w s r Hui Hcan Hfail. eexists.
    exists {| role := str "bot"; text := JStr fallback_text |}.
    split; [exact (send_then_fail w s r Hui Hcan Hfail)|].
    now split_all.
Qed.

(** The part of C9 that holds while the component stays mounted: the
    conversation starts with one bot record, the greeting, and when [n]
    sends have passed the precondition and none is outstanding, the
    conversation of the mounted component has [2n + 1] records. *)
Lemma conversation_length_while_mounted (evs : list Event) (w : World) (s : State) :
  run evs initial_world = Some w ->
  ui w = Mounted s ->
  tasks w = [] ->
  conversation initial_world = Some [ {| role := str "bot"; text := JStr greeting |} ] /\
  length (messages s) = 2 * length (requests (calls w)) + 1.
Proof.
  intros Hrun Hui Hidle. split; [reflexivity|].
  destruct (reachable_inv evs w Hrun) as (_ & _ & _ & Hm).
  rewrite Hui, Hidle in Hm. destruct Hm as [Hlen _]. cbn in Hlen. lia.
Qed.

(** * The theorems at concrete inputs *)

Lemma sendMessage_noop_when_blocked_witness :
  ui busy_world = Mounted (cells busy_world) /\
  (loading (cells busy_world) = true \/ trim (input (cells busy_world)) = []) /\
  input (cells busy_world) = str "more" /\
  call_sendMessage busy_world = busy_world /\
  step (KeyDown (str "Enter") false) busy_world = Some busy_world.
Proof.
  split; [reflexivity|]. split; [left; reflexivity|]. split; [reflexivity|].
  destruct (sendMessage_noop_when_blocked busy_world (cells busy_world))
    as (H1 & H2 & _); [reflexivity | left; reflexivity |].
  split; [exact H1 | exact H2].
Defined.

Lemma sendMessage_issues_one_post_witness :
  ui typed_world = Mounted (cells typed_world) /\
  can_send (cells typed_world) /\
  requests (calls (call_sendMessage typed_world))
    = [ {| url := API_URL;
           method := str "POST";
           headers := [ (str "Content-Type", str "application/json") ];
           body := JSON_stringify (JObj [ (str "message", JStr (str "hi")) ]) |} ].
Proof.
  split; [reflexivity|]. split; [split; reflexivity|].
  destruct (sendMessage_issues_one_post typed_world (cells typed_world))
    as [H _]; [reflexivity | split; reflexivity |].
  exact H.
Defined.

Lemma fallback_on_failed_delivery_witness :
  ui typed_world = Mounted (cells typed_world) /\
  can_send (cells typed_world) /\
  delivery_failed (Fulfilled {| status := 500 |}) /\
  exists w',
    step (FetchSettled 0 (Fulfilled {| status := 500 |})) (call_sendMessage typed_world)
      = Some w' /\
    conversation w' =
      Some [ {| role := str "bot"; text := JStr greeting |};
             {| role := str "user"; text := JStr (str "hi") |};
             {| role := str "bot"; text := JStr fallback_text |} ].
Proof.
  split; [reflexivity|]. split; [split; reflexivity|]. split; [reflexivity|].
  apply (fallback_on_failed_delivery typed_world (cells typed_world)
           (Fulfilled {| status := 500 |}));
    [reflexivity | split; reflexivity | reflexivity].
Defined.

Lemma reply_round_trip_witness :
  ui typed_world = Mounted (cells typed_world) /\
  can_send (cells typed_world) /\
  ok {| status := 200 |} = true /\
  get_own (str "reply") [ (str "reply", JStr (str "X")) ] = Some (JStr (str "X")) /\
  exists w1 w2,
    step (FetchSettled 0 (Fulfilled {| status := 200 |})) (call_sendMessage typed_world)
      = Some w1 /\
    step (JsonSettled 0 (Fulfilled (JObj [ (str "reply", JStr (str "X")) ]))) w1
      = Some w2 /\
    conversation w2 =
      Some [ {| role := str "bot"; text := JStr greeting |};
             {| role := str "user"; text := JStr (str "hi") |};
             {| role := str "bot"; text := JStr (str "X") |} ].
Proof.
  split; [reflexivity|]. split; [split; reflexivity|].
  split; [reflexivity|]. split; [reflexivity|].
  apply (reply_round_trip typed_world (cells typed_world) {| status := 200 |}
           [ (str "reply", JStr (str "X")) ] (JStr (str "X")));
    [reflexivity | split; reflexivity | reflexivity | reflexivity].
Defined.

Lemma busy_flag_tracks_outstanding_request_witness :
  run [ Change (str "hi"); Click ] initial_world
    = Some (world_after [ Change (str "hi"); Click ]) /\
  length (tasks (world_after [ Change (str "hi"); Click ])) <= 1 /\
  (loading (cells (world_after [ Change (str "hi"); Click ])) = true
   <-> length (tasks (world_after [ Change (str "hi"); Click ])) = 1).
Proof.
  split; [reflexivity|].
  destruct (busy_flag_tracks_outstanding_request [ Change (str "hi"); Click ]
              (world_after [ Change (str "hi"); Click ]))
    as (H1 & H2 & _); [reflexivity|].
  split; [exact H1 | apply H2; reflexivity].
Defined.

Lemma sendMessage_never_throws_witness :
  never_throws (sendMessage (str "hi") false) /\
  unhandled (world_after [ Change (str "hi"); Click;
                           FetchSettled 0 (Rejected (TypeError "Failed to fetch")) ]) = [].
Proof.
  destruct sendMessage_never_throws as (H1 & H2 & _).
  split; [apply H1|].
  apply (H2 [ Change (str "hi"); Click;
              FetchSettled 0 (Rejected (TypeError "Failed to fetch")) ]).
  reflexivity.
Defined.

(** * More of the component *)

(** ** Every step is a move of the protocol *)

Lemma jsstring_eqb_eq (a b : jsstring) : jsstring_eqb a b = true <-> a = b.
Proof.
  unfold jsstring_eqb. destruct (list_eq_dec N.eq_dec a b); split;
    congruence.
Qed.

Lemma take_task_single (i : nat) (t t' : Task) (rest : list Task) :
  take_task i [t] = Some (t', rest) -> i = 0 /\ t' = t /\ rest = [].
Proof.
  destruct i as [|j]; cbn; [|discriminate].
  intros [= <- <-]. now split_all.
Qed.

(** A call of [sendMessage] from a world that satisfies the invariant either
    changes nothing or is the move [t_sent]. *)
Lemma call_sendMessage_transition (ev : Event) (w : World) (s : State) :
  ev = Click \/ ev = KeyDown (str "Enter") false ->
  ui w = Mounted s -> settled_inv w ->
  (call_sendMessage w = w /\ (loading s = true \/ trim (input s) = []))
  \/ transition ev w (call_sendMessage w).
Proof.
  intros Hev Hui Hinv.
  destruct (can_send_dec s) as [Hcan | Hno].
  - right. destruct (call_sendMessage_passes w s Hui Hcan) as (k & Hk & ->).
    destruct Hinv as (_ & _ & _ & Hm). rewrite Hui in Hm.
    destruct Hm as [_ Htasks]. pose proof Hcan as [_ Hld].
    destruct (tasks w) as [|t [|t' ts]] eqn:Etasks;
      [| destruct Htasks; congruence | contradiction].
    now apply (@t_sent ev w s k).
  - left. split; [now apply call_sendMessage_blocked with s | assumption].
Qed.

Lemma close_transition (ev : Event) (w : World) (s : State) (t : Task) :
  ui w = Mounted s -> loading s = true -> tasks w = [t] ->
  settles ev (JStr fallback_text) ->
  transition ev w (exec fallback_close (with_tasks [] w)).
Proof.
  intros Hui Hld Etasks Hset.
  rewrite (exec_fallback_close (with_tasks [] w) s Hui).
  now apply (@t_closed ev w s t append_fallback (JStr fallback_text)).
Qed.

Lemma step_transition (w w' : World) (ev : Event) :
  settled_inv w -> step ev w = Some w' -> transition ev w w'.
Proof.
  intros Hinv Hstep.
  destruct ev as [v | key shift | | i r | i r]; cbn [step] in Hstep.
  - destruct (ui w) as [s | e] eqn:Hui; [|discriminate].
    injection Hstep as <-. exec_simpl. rewrite Hui. exec_simpl.
    now apply t_typed.
  - destruct (ui w) as [s | e] eqn:Hui; [|discriminate].
    injection Hstep as <-. unfold handleKeyDown.
    destruct (jsstring_eqb key (str "Enter") && negb shift) eqn:Hkey.
    + apply andb_prop in Hkey as [Hk Hs].
      apply jsstring_eqb_eq in Hk. apply negb_true_iff in Hs. subst key shift.
      rewrite (call_sendMessage_exec w s Hui).
      destruct (call_sendMessage_transition (KeyDown (str "Enter") false) w s)
        as [[-> _] | Ht]; auto.
      apply t_ignored. now exists (str "Enter"), false.
    + cbn [exec]. apply t_ignored. now exists key, shift.
  - destruct (ui w) as [s | e] eqn:Hui; [|discriminate].
    destruct (send_disabled s) eqn:Hdis; [discriminate|].
    injection Hstep as <-. rewrite (call_sendMessage_exec w s Hui).
    destruct (call_sendMessage_transition Click w s) as [[_ Hno] | Ht]; auto.
    unfold send_disabled in Hdis. apply orb_false_elim in Hdis as [Hld Htr].
    destruct Hno as [Hno | Hno]; [congruence|].
    rewrite Hno in Htr. discriminate.
  - destruct (take_task i (tasks w)) as [[t rest]|] eqn:Htake; [|discriminate].
    destruct (take_task_inv w i t rest Hinv Htake) as (s & Hui & Etasks & -> & Hp).
    rewrite Etasks in Htake. apply take_task_single in Htake as (-> & _ & _).
    assert (Hld : loading s = true).
    { destruct Hinv as (_ & _ & _ & Hm). rewrite Hui, Etasks in Hm. apply Hm. }
    destruct t as [req k | res k]; [|discriminate].
    injection Hstep as <-. cbn in Hp. destruct Hp as (Hrej & Hbad & Hgood).
    destruct r as [res | e].
    + destruct (ok res) eqn:Hok.
      * destruct (Hgood res Hok) as (k' & -> & Hk').
        exec_simpl. rewrite Hui. now apply (@t_answered w s req k res k').
      * rewrite (Hbad res Hok).
        apply close_transition with s (AwaitingFetch req k); auto. now split.
    + rewrite Hrej.
      apply close_transition with s (AwaitingFetch req k); auto. now split.
  - destruct (take_task i (tasks w)) as [[t rest]|] eqn:Htake; [|discriminate].
    destruct (take_task_inv w i t rest Hinv Htake) as (s & Hui & Etasks & -> & Hp).
    rewrite Etasks in Htake. apply take_task_single in Htake as (-> & _ & _).
    assert (Hld : loading s = true).
    { destruct Hinv as (_ & _ & _ & Hm). rewrite Hui, Etasks in Hm. apply Hm. }
    destruct t as [req k | res k]; [discriminate|].
    injection Hstep as <-. cbn in Hp. destruct Hp as (Hrej & Hful).
    destruct r as [data | e].
    + rewrite Hful. destruct (get_reply data) as [e | reply] eqn:Eget.
      * rewrite (exec_reply_close_throws (with_tasks [] w) s data e Hui Eget).
        now apply (@t_torn_down w s (AwaitingJson res k) data e).
      * rewrite (exec_reply_close (with_tasks [] w) s data reply Hui Eget).
        now apply (@t_closed (JsonSettled 0 (Fulfilled data)) w s
                     (AwaitingJson res k) (append_reply data) reply).
    + rewrite Hrej.
      now apply close_transition with s (AwaitingJson res k).
Qed.

(** ** The shape of the conversation *)

Lemma requests_of_app (a b : list Message) :
  requests_of (a ++ b) = requests_of a ++ requests_of b.
Proof.
  induction a as [|m a IH]; cbn [app requests_of]; [reflexivity|].
  destruct (jsstring_eqb (role m) (str "user")); [|assumption].
  destruct (text m); try assumption. cbn [app]. now rewrite IH.
Qed.

Lemma requests_of_exchanges (done : list (jsstring * jsval)) :
  requests_of (flat_map exchange done) = map chat_request (map fst done).
Proof.
  induction done as [|[u b] done IH]; [reflexivity|].
  cbn [flat_map map fst]. rewrite requests_of_app, IH. reflexivity.
Qed.

Lemma requests_of_pending (p : option jsstring) :
  requests_of (pending_record p) = map chat_request (pending_text p).
Proof. destruct p; reflexivity. Qed.

Lemma transition_conversation (ev : Event) (w w' : World) :
  conversation_inv w -> transition ev w w' -> conversation_inv w'.
Proof.
  intros Hinv Ht. unfold conversation_inv in *.
  destruct Ht as [ev w _ | v w s Hui | ev w s k _ Hui Hcan _ _
                  | w s req k res k' Hui _ _ _ _
                  | ev w s t u bot_text _ Hui Hld _
                  | w s t data e _ Hui _ _];
    cbn [ui calls messages loading sent_state]; try exact I; try assumption;
    rewrite Hui in Hinv; destruct Hinv as (done & pending & Hms & Hreq & Hp).
  - exists done, pending. rewrite requests_app, app_nil_r. now split_all.
  - destruct Hcan as [_ Hld]. rewrite Hld in Hp.
    destruct pending; [discriminate|]. cbn [pending_record pending_text] in *.
    rewrite !app_nil_r in *.
    exists done, (Some (input s)). split_all.
    + now rewrite Hms.
    + rewrite requests_app, Hreq, map_app. reflexivity.
    + reflexivity.
  - exists done, pending. rewrite requests_app, app_nil_r. now split_all.
  - rewrite Hld in Hp. destruct pending as [user_text|]; [|discriminate].
    cbn [pending_record pending_text] in *.
    exists (done ++ [(user_text, bot_text)]), None. split_all.
    + rewrite Hms, flat_map_app. cbn [flat_map exchange fst snd pending_record].
      rewrite !app_nil_r. cbn [app]. now rewrite <- app_assoc.
    + rewrite requests_app, Hreq, !map_app. cbn. now rewrite !app_nil_r.
    + reflexivity.
Qed.

Lemma run_conversation (evs : list Event) :
  forall w w', settled_inv w -> conversation_inv w -> run evs w = Some w' ->
               conversation_inv w'.
Proof.
  induction evs as [|ev evs IH]; intros w w' Hs Hc Hrun; cbn in Hrun.
  - now injection Hrun as <-.
  - destruct (step ev w) as [w1|] eqn:Hstep; [|discriminate].
    apply (IH w1 w'); [| |assumption].
    + now destruct (step_inv w w1 ev Hs Hstep).
    + apply (transition_conversation ev w w1 Hc).
      now apply step_transition.
Qed.

Lemma reachable_conversation (evs : list Event) (w : World) :
  run evs initial_world = Some w -> conversation_inv w.
Proof.
  apply run_conversation; [apply initial_inv|].
  exists [], None. now split_all.
Qed.

(** X5.  The conversation is the greeting followed by complete exchanges, a user
    record and the bot record that answers it, and it ends in a lone user
    record exactly while the answer to the last send is awaited. *)
Theorem conversation_is_greeting_then_exchanges (evs : list Event) (w : World) (s : State) :
  run evs initial_world = Some w ->
  ui w = Mounted s ->
  exists (done : list (jsstring * jsval)) (pending : option jsstring),
    messages s = greeting_record :: flat_map exchange done ++ pending_record pending /\
    loading s = is_pending pending.
Proof.
  intros Hrun Hui. pose proof (reachable_conversation evs w Hrun) as Hc.
  unfold conversation_inv in Hc. rewrite Hui in Hc.
  destruct Hc as (done & pending & Hms & _ & Hp). now exists done, pending.
Qed.

(** X6.  What was sent is what is shown: the requests issued so far are, in
    order, those of the user records of the conversation, each carrying the
    text of its record as [message]. *)
Theorem requests_match_user_records (evs : list Event) (w : World) (s : State) :
  run evs initial_world = Some w ->
  ui w = Mounted s ->
  requests (calls w) = requests_of (messages s).
Proof.
  intros Hrun Hui. pose proof (reachable_conversation evs w Hrun) as Hc.
  unfold conversation_inv in Hc. rewrite Hui in Hc.
  destruct Hc as (done & pending & -> & -> & _).
  change (requests_of (greeting_record :: ?l)) with (requests_of l).
  now rewrite requests_of_app, requests_of_exchanges, requests_of_pending, map_app.
Qed.

(** ** Over any number of events *)

Lemma run_append_only (evs : list Event) :
  forall w w', settled_inv w -> run evs w = Some w' ->
    match ui w, ui w' with
    | Mounted s, Mounted s' => exists more, messages s' = messages s ++ more
    | Unmounted _, Mounted _ => False
    | _, Unmounted _ => True
    end.
Proof.
  induction evs as [|ev evs IH]; intros w w' Hs Hrun; cbn in Hrun.
  - injection Hrun as <-. destruct (ui w); [|exact I].
    exists []. now rewrite app_nil_r.
  - destruct (step ev w) as [w1|] eqn:Hstep; [|discriminate].
    destruct (step_inv w w1 ev Hs Hstep) as [Hs1 Happ].
    specialize (IH w1 w' Hs1 Hrun). unfold append_only in Happ.
    destruct (ui w) as [s | e], (ui w1) as [s1 | e1], (ui w') as [s' | e'];
      try exact I; try contradiction.
    destruct IH as [more Hmore].
    destruct Happ as [E | (m & E & _)]; rewrite E in Hmore.
    + now exists more.
    + exists (m :: more). rewrite Hmore, <- app_assoc. reflexivity.
Qed.

(** X7.  Whatever happens on the page, in any number of events, the records
    already in the conversation stay where they are: a later conversation
    starts with the whole of an earlier one. *)
Theorem history_is_never_rewritten (evs evs' : list Event) (w w' : World) (s s' : State) :
  run evs initial_world = Some w ->
  run evs' w = Some w' ->
  ui w = Mounted s ->
  ui w' = Mounted s' ->
  exists more, messages s' = messages s ++ more.
Proof.
  intros Hrun Hrun' Hui Hui'.
  pose proof (run_append_only evs' w w' (reachable_inv evs w Hrun) Hrun') as H.
  now rewrite Hui, Hui' in H.
Qed.


(** ** The guard, the key and the button *)

Lemma has_ink_forallb (x : jsstring) :
  has_ink x = negb (forallb is_white_space x).
Proof.
  unfold has_ink. induction x as [|c x IH]; cbn [existsb forallb]; [reflexivity|].
  rewrite IH. now destruct (is_white_space c).
Qed.

Lemma forallb_trim_start (x : jsstring) :
  forallb is_white_space (trim_start x) = forallb is_white_space x.
Proof.
  induction x as [|c x IH]; cbn [trim_start forallb]; [reflexivity|].
  destruct (is_white_space c) eqn:Hc; cbn [forallb andb]; [assumption|].
  now rewrite Hc.
Qed.

Lemma truthy_trim_start (x : jsstring) :
  truthy (trim_start x) = negb (forallb is_white_space x).
Proof.
  induction x as [|c x IH]; cbn [trim_start forallb]; [reflexivity|].
  destruct (is_white_space c); cbn [andb]; [assumption | reflexivity].
Qed.

Lemma forallb_rev (f : N -> bool) (x : jsstring) :
  forallb f (rev x) = forallb f x.
Proof.
  induction x as [|c x IH]; cbn [rev forallb]; [reflexivity|].
  rewrite forallb_app, IH. cbn [forallb]. rewrite andb_true_r. apply andb_comm.
Qed.

Lemma truthy_rev (x : jsstring) : truthy (rev x) = truthy x.
Proof.
  destruct x as [|c x]; [reflexivity|]. cbn [rev truthy].
  now destruct (rev x).
Qed.

(** [!input.trim()] is false exactly for a string that has a code unit
    other than white space. *)
Lemma truthy_trim (x : jsstring) : truthy (trim x) = has_ink x.
Proof.
  unfold trim, trim_end.
  now rewrite truthy_rev, truthy_trim_start, forallb_rev, forallb_trim_start,
    has_ink_forallb.
Qed.

(** X1.  A call of [sendMessage] issues a request exactly when [loading] is
    false and the input has a code unit that is not white space; the request
    then carries the whole input, white space around it included. *)
Theorem send_passes_iff_ink (w : World) (s : State) :
  ui w = Mounted s ->
  requests (calls (call_sendMessage w)) =
    requests (calls w)
      ++ (if negb (loading s) && has_ink (input s)
          then [chat_request (input s)]
          else []).
Proof.
  intros Hui. rewrite <- truthy_trim.
  destruct (can_send_dec s) as [Hcan | Hno].
  - destruct (call_sendMessage_passes w s Hui Hcan) as (k & _ & ->).
    destruct Hcan as [-> ->]. cbn [calls negb andb].
    now rewrite !requests_app.
  - rewrite (call_sendMessage_blocked w s Hui Hno).
    destruct Hno as [-> | ->]; cbn [negb andb truthy];
      rewrite ?andb_false_r; now rewrite app_nil_r.
Qed.

(** A call of [sendMessage] from the render that commits the updates of a
    first call changes nothing. *)
Lemma call_sendMessage_again (w : World) :
  call_sendMessage (call_sendMessage w) = call_sendMessage w.
Proof.
  destruct (ui w) as [s | e] eqn:Hui.
  - destruct (can_send_dec s) as [Hcan | Hno].
    + destruct (call_sendMessage_passes w s Hui Hcan) as (k & _ & ->).
      apply call_sendMessage_blocked with
        {| messages := messages s
                         ++ [ {| role := str "user"; text := JStr (input s) |} ];
           input := []; loading := true |};
        [reflexivity | now left].
    + now rewrite !(call_sendMessage_blocked w s Hui Hno).
  - unfold call_sendMessage at 2. rewrite Hui.
    unfold call_sendMessage. now rewrite Hui.
Qed.

(** X2.  The guard reads the [input] and [loading] that the function closed
    over, not the cells.  A second call made by the next render, the one
    that commits the updates of a passing first call, changes nothing; a
    second call made by the same render passes the guard again, appends the
    user's record a second time and issues a second request with the same
    text. *)
Theorem second_send_is_blocked_by_the_next_render_only (w : World) (s : State) :
  ui w = Mounted s ->
  can_send s ->
  let same_render := exec (sendMessage (input s) (loading s)) (call_sendMessage w) in
  call_sendMessage (call_sendMessage w) = call_sendMessage w /\
  requests (calls same_render)
    = requests (calls w) ++ [ chat_request (input s); chat_request (input s) ] /\
  length (tasks same_render) = length (tasks w) + 2 /\
  conversation same_render
    = Some (messages s ++ [ {| role := str "user"; text := JStr (input s) |};
                            {| role := str "user"; text := JStr (input s) |} ]).
Proof.
  intros Hui Hcan same_render. subst same_render.
  split; [apply call_sendMessage_again|].
  destruct (call_sendMessage_passes w s Hui Hcan) as (k & _ & ->).
  destruct Hcan as [Hin Hld]. rewrite Hld.
  destruct (sendMessage_passes (input s) Hin) as (k2 & -> & _).
  exec_simpl. unfold conversation. cbn [ui messages].
  rewrite !requests_app, !length_app, <- !app_assoc. cbn. split_all.
  - reflexivity.
  - lia.
  - reflexivity.
Qed.

(** X3.  Only an Enter without Shift sends: any other key, and Enter with Shift,
    leaves the page as it is. *)
Theorem only_plain_Enter_sends (w : World) (s : State) (key : jsstring) (shiftKey : bool) :
  ui w = Mounted s ->
  key <> str "Enter" \/ shiftKey = true ->
  step (KeyDown key shiftKey) w = Some w.
Proof.
  intros Hui Hother. cbn [step]. rewrite Hui. unfold handleKeyDown.
  replace (jsstring_eqb key (str "Enter") && negb shiftKey) with false;
    [reflexivity|].
  symmetry. destruct Hother as [Hkey | ->]; [|apply andb_false_r].
  destruct (jsstring_eqb key (str "Enter")) eqn:E; [|reflexivity].
  apply jsstring_eqb_eq in E. contradiction.
Qed.

(** X4.  The send button is disabled exactly when a call of [sendMessage] would
    do nothing.  When it is enabled, a click and a plain Enter do the same;
    when it is disabled, no click reaches the component. *)
Theorem button_disabled_iff_send_is_noop (w : World) (s : State) :
  ui w = Mounted s ->
  (Render.send_btn_disabled (Render.Chat s) = true <-> call_sendMessage w = w) /\
  (Render.send_btn_disabled (Render.Chat s) = false ->
     step Click w = Some (call_sendMessage w) /\
     step (KeyDown (str "Enter") false) w = step Click w) /\
  (Render.send_btn_disabled (Render.Chat s) = true -> step Click w = None).
Proof.
  intros Hui. cbn [Render.send_btn_disabled Render.Chat].
  assert (Hkey : step (KeyDown (str "Enter") false) w = Some (call_sendMessage w)).
  { cbn [step]. rewrite Hui. unfold handleKeyDown.
    replace (jsstring_eqb (str "Enter") (str "Enter") && negb false) with true
      by reflexivity.
    now rewrite (call_sendMessage_exec w s Hui). }
  split; [split|split].
  - intros Hdis. apply call_sendMessage_blocked with s; [assumption|].
    unfold send_disabled in Hdis. apply orb_prop in Hdis as [Hld | Htr];
      [now left | right].
    apply negb_true_iff in Htr. now apply truthy_false.
  - intros Hsame. destruct (can_send_dec s) as [Hcan | Hno].
    + destruct (call_sendMessage_passes w s Hui Hcan) as (k & _ & Hw).
      rewrite Hsame in Hw. apply (f_equal (fun x => length (calls x))) in Hw.
      cbn [calls] in Hw. rewrite !length_app in Hw. cbn in Hw. lia.
    + unfold send_disabled. destruct Hno as [-> | ->]; [reflexivity|].
      apply orb_true_r.
  - intros Hdis. rewrite Hkey. cbn [step]. rewrite Hui, Hdis.
    now rewrite (call_sendMessage_exec w s Hui).
  - intros Hdis. cbn [step]. now rewrite Hui, Hdis.
Qed.

(** ** What is on the screen *)

Lemma map_from_bubbles (l : list Message) :
  forall i,
    map (fun p => Render.bubble (Render.Message p))
        (map_from (fun m i =>
                     let '(mkMessage r t) := m in
                     {| Render.key := Some i; Render.role := r;
                        Render.text := t; Render.typing := false |}) i l)
    = map (fun m => Render.MarkdownContent (text m)) l.
Proof.
  induction l as [|[r t] l IH]; intros i; cbn [map_from map]; [reflexivity|].
  now rewrite IH.
Qed.

Lemma map_from_keys (l : list Message) :
  forall i,
    map Render.key
        (map_from (fun m i =>
                     let '(mkMessage r t) := m in
                     {| Render.key := Some i; Render.role := r;
                        Render.text := t; Render.typing := false |}) i l)
    = map Some (seq i (length l)).
Proof.
  induction l as [|[r t] l IH]; intros i; cbn [map_from map length seq]; [reflexivity|].
  now rewrite IH.
Qed.

Lemma map_from_Forall (P : Render.Props -> Prop) (l : list Message) :
  (forall r t i, In (mkMessage r t) l ->
     P {| Render.key := Some i; Render.role := r;
          Render.text := t; Render.typing := false |}) ->
  forall i,
    Forall P
      (map_from (fun m i =>
                   let '(mkMessage r t) := m in
                   {| Render.key := Some i; Render.role := r;
                      Render.text := t; Render.typing := false |}) i l).
Proof.
  induction l as [|[r t] l IH]; intros H i; cbn [map_from]; constructor.
  - apply H. now left.
  - apply IH. intros r' t' j Hin. apply H. now right.
Qed.

Lemma flag_counts_tasks (w : World) (s : State) :
  settled_inv w -> ui w = Mounted s ->
  tasks w = (if loading s then tasks w else []) /\
  length (tasks w) = (if loading s then 1 else 0).
Proof.
  intros (_ & _ & _ & Hm) Hui. rewrite Hui in Hm. destruct Hm as [_ Htasks].
  destruct (tasks w) as [|t [|t' ts]]; [| | contradiction].
  - rewrite Htasks. now split.
  - destruct Htasks as [-> _]. now split.
Qed.

(** X9.  The chat body shows the texts of the conversation in order, one bubble
    per record and keyed by its position, and after them one typing
    indicator exactly while a request is outstanding. *)
Theorem body_shows_conversation_then_indicator (evs : list Event) (w : World) (s : State) :
  run evs initial_world = Some w ->
  ui w = Mounted s ->
  map (fun p => Render.bubble (Render.Message p)) (Render.chat_body (Render.Chat s))
    = map (fun m => Render.MarkdownContent (text m)) (messages s)
        ++ repeat Render.TypingIndicator (length (tasks w)) /\
  map Render.key (Render.chat_body (Render.Chat s))
    = map Some (seq 0 (length (messages s))) ++ repeat None (length (tasks w)).
Proof.
  intros Hrun Hui.
  destruct (flag_counts_tasks w s (reachable_inv evs w Hrun) Hui) as [_ ->].
  cbn [Render.chat_body Render.Chat]. rewrite !map_app.
  rewrite map_from_bubbles, map_from_keys.
  now destruct (loading s).
Qed.

Lemma conversation_roles (done : list (jsstring * jsval)) (pending : option jsstring) :
  Forall (fun m => role m = str "user" \/ role m = str "bot")
    (greeting_record :: flat_map exchange done ++ pending_record pending).
Proof.
  constructor; [now right|]. apply Forall_app. split.
  - induction done as [|[u b] done IH]; cbn [flat_map]; [constructor|].
    apply Forall_app. split; [|assumption].
    unfold exchange. constructor; [now left|]. constructor; [now right|].
    constructor.
  - destruct pending; cbn [pending_record]; constructor; [now left | constructor].
Qed.

(** X10.  Every row on the screen is a bot row or a user row: a record whose role
    is [bot], and the typing row, get the class [message-row bot], the bot
    avatar and the bot icon; every other row belongs to a record whose role
    is [user] and gets the user's. *)
Theorem every_row_is_a_bot_or_user_row (evs : list Event) (w : World) (s : State) :
  run evs initial_world = Some w ->
  ui w = Mounted s ->
  Forall
    (fun p =>
       (Render.role p = str "bot" /\
        Render.Message p =
          {| Render.row_className := str "message-row bot";
             Render.avatar_className := str "avatar bot-avatar";
             Render.avatar_icon := Render.Bot;
             Render.bubble := if Render.typing p then Render.TypingIndicator
                              else Render.MarkdownContent (Render.text p) |})
       \/
       (Render.role p = str "user" /\
        Render.Message p =
          {| Render.row_className := str "message-row user";
             Render.avatar_className := str "avatar user-avatar";
             Render.avatar_icon := Render.User;
             Render.bubble := Render.MarkdownContent (Render.text p) |}))
    (Render.chat_body (Render.Chat s)).
Proof.
  intros Hrun Hui. pose proof (reachable_conversation evs w Hrun) as Hc.
  unfold conversation_inv in Hc. rewrite Hui in Hc.
  destruct Hc as (done & pending & Hms & _ & _).
  pose proof (conversation_roles done pending) as Hroles. rewrite <- Hms in Hroles.
  cbn [Render.chat_body Render.Chat]. apply Forall_app. split.
  - apply map_from_Forall. intros r t i Hin.
    rewrite Forall_forall in Hroles. specialize (Hroles _ Hin). cbn [role] in Hroles.
    destruct Hroles as [-> | ->]; [right | left]; split; reflexivity.
  - destruct (loading s); constructor; [|constructor].
    left. split; reflexivity.
Qed.

(** ** The teardown *)

(** From a world the page can reach, a step keeps the component mounted and
    its conversation unchanged or longer by one record at the end, with one
    exception: the settlement of [res.json()] with a value whose [reply]
    cannot be read, which tears the component down. *)
Lemma step_appends_or_tears_down (evs : list Event) (w w' : World) (ev : Event)
    (s : State) :
  run evs initial_world = Some w ->
  step ev w = Some w' ->
  ui w = Mounted s ->
  (exists s',
     ui w' = Mounted s' /\
     (messages s' = messages s \/
      exists m, messages s' = messages s ++ [m] /\
                (role m = str "user" \/ role m = str "bot")))
  \/
  (exists data e,
     ev = JsonSettled 0 (Fulfilled data) /\ get_reply data = inl e /\
     ui w' = Unmounted e).
Proof.
  intros Hrun Hstep Hui.
  pose proof (step_transition w w' ev (reachable_inv evs w Hrun) Hstep) as Ht.
  destruct Ht as [ev w _ | v w s0 H0 | ev w s0 k _ H0 _ _ _
                  | w s0 req k res k' H0 _ _ _ _
                  | ev w s0 t u bot_text _ H0 _ _
                  | w s0 t data e Hget H0 _ _];
    try (rewrite Hui in H0; injection H0 as <-).
  - left. exists s. split; [assumption | now left].
  - left. eexists. split; [reflexivity | now left].
  - left. eexists. split; [reflexivity|]. right. eexists.
    split; [reflexivity | now left].
  - left. exists s. split; [reflexivity | now left].
  - left. eexists. split; [reflexivity|]. right. eexists.
    split; [reflexivity | now right].
  - right. now exists data, e.
Qed.

(** C6, at the input where the code departs from it.  The user's record
    for [hi] is in the conversation and the server has answered 200; the
    body then parses to [null].  [data.reply] throws inside the updater when
    React applies it, outside the try block, and this one step takes the
    conversation from two records to none: the greeting and the user's
    record are gone from the page, neither left unchanged nor extended. *)
Theorem teardown_wipes_the_conversation :
  let evs :=
    [ Change (str "hi"); Click; FetchSettled 0 (Fulfilled {| status := 200 |}) ] in
  let ev := JsonSettled 0 (Fulfilled JNull) in
  run evs initial_world = Some (world_after evs) /\
  conversation (world_after evs)
    = Some [ {| role := str "bot"; text := JStr greeting |};
             {| role := str "user"; text := JStr (str "hi") |} ] /\
  step ev (world_after evs) = Some (world_after (evs ++ [ev])) /\
  conversation (world_after (evs ++ [ev])) = None.
Proof. vm_compute. now split_all. Qed.

(** C9, at the input where the code departs from it.  The conversation
    starts with the greeting alone.  A first send fails with a 503 and
    leaves three records; a second send is answered 200 with the body
    [null].  Two sends have then been issued and none is outstanding, but
    the conversation does not hold five records: [data.reply] threw inside
    the updater, the component was torn down and no record is left. *)
Theorem torn_down_send_leaves_no_records :
  let first :=
    [ Change (str "hi"); KeyDown (str "Enter") false;
      FetchSettled 0 (Fulfilled {| status := 503 |}) ] in
  let second :=
    [ Change (str "again"); KeyDown (str "Enter") false;
      FetchSettled 0 (Fulfilled {| status := 200 |});
      JsonSettled 0 (Fulfilled JNull) ] in
  conversation initial_world
    = Some [ {| role := str "bot"; text := JStr greeting |} ] /\
  option_map (@length Message) (conversation (world_after first)) = Some 3 /\
  run (first ++ second) initial_world = Some (world_after (first ++ second)) /\
  length (requests (calls (world_after (first ++ second)))) = 2 /\
  tasks (world_after (first ++ second)) = [] /\
  conversation (world_after (first ++ second)) = None.
Proof. vm_compute. now split_all. Qed.

(** ** These theorems at concrete inputs *)

Lemma conversation_is_greeting_then_exchanges_witness :
  ui second_send_world = Mounted (cells second_send_world) /\
  exists (done : list (jsstring * jsval)) (pending : option jsstring),
    messages (cells second_send_world)
      = greeting_record :: flat_map exchange done ++ pending_record pending /\
    loading (cells second_send_world) = is_pending pending.
Proof.
  split; [reflexivity|].
  apply (conversation_is_greeting_then_exchanges
           [ Change (str "hi"); Click;
             FetchSettled 0 (Fulfilled {| status := 200 |});
             JsonSettled 0 (Fulfilled (JObj [ (str "reply", JStr (str "hello")) ]));
             Change (str "again"); Click ]
           second_send_world (cells second_send_world));
    reflexivity.
Defined.

Lemma requests_match_user_records_witness :
  ui second_send_world = Mounted (cells second_send_world) /\
  requests (calls second_send_world) = [ chat_request (str "hi"); chat_request (str "again") ] /\
  requests (calls second_send_world) = requests_of (messages (cells second_send_world)).
Proof.
  split; [reflexivity|]. split; [reflexivity|].
  apply (requests_match_user_records
           [ Change (str "hi"); Click;
             FetchSettled 0 (Fulfilled {| status := 200 |});
             JsonSettled 0 (Fulfilled (JObj [ (str "reply", JStr (str "hello")) ]));
             Change (str "again"); Click ]
           second_send_world (cells second_send_world));
    reflexivity.
Defined.

Lemma history_is_never_rewritten_witness :
  let evs := [ Change (str "hi"); Click ] in
  let evs' := [ FetchSettled 0 (Rejected (TypeError "Failed to fetch"));
                Change (str "again") ] in
  run evs initial_world = Some (world_after evs) /\
  run evs' (world_after evs) = Some (world_after (evs ++ evs')) /\
  exists more,
    messages (cells (world_after (evs ++ evs')))
      = messages (cells (world_after evs)) ++ more.
Proof.
  cbv zeta. split; [reflexivity|]. split; [reflexivity|].
  apply (history_is_never_rewritten
           [ Change (str "hi"); Click ]
           [ FetchSettled 0 (Rejected (TypeError "Failed to fetch"));
             Change (str "again") ]
           (world_after [ Change (str "hi"); Click ])
           (world_after ([ Change (str "hi"); Click ]
                           ++ [ FetchSettled 0 (Rejected (TypeError "Failed to fetch"));
                                Change (str "again") ])));
    reflexivity.
Defined.


Lemma send_passes_iff_ink_witness :
  ui padded_world = Mounted (cells padded_world) /\
  has_ink (input (cells padded_world)) = true /\
  requests (calls (call_sendMessage padded_world)) = [ chat_request (str " hi ") ].
Proof.
  split; [reflexivity|]. split; [reflexivity|].
  rewrite (send_passes_iff_ink padded_world (cells padded_world) eq_refl).
  reflexivity.
Defined.

Lemma only_plain_Enter_sends_witness :
  ui typed_world = Mounted (cells typed_world) /\
  step (KeyDown (str "Enter") true) typed_world = Some typed_world.
Proof.
  split; [reflexivity|].
  apply (only_plain_Enter_sends typed_world (cells typed_world) (str "Enter") true);
    [reflexivity | right; reflexivity].
Defined.

Lemma button_disabled_iff_send_is_noop_witness :
  ui busy_world = Mounted (cells busy_world) /\
  Render.send_btn_disabled (Render.Chat (cells busy_world)) = true /\
  call_sendMessage busy_world = busy_world /\
  step Click busy_world = None.
Proof.
  split; [reflexivity|]. split; [reflexivity|].
  destruct (button_disabled_iff_send_is_noop busy_world (cells busy_world) eq_refl)
    as ([H _] & _ & H').
  split; [apply H | apply H']; reflexivity.
Defined.

Lemma body_shows_conversation_then_indicator_witness :
  ui second_send_world = Mounted (cells second_send_world) /\
  map (fun p => Render.bubble (Render.Message p))
      (Render.chat_body (Render.Chat (cells second_send_world)))
    = [ Render.MarkdownContent (JStr greeting);
        Render.MarkdownContent (JStr (str "hi"));
        Render.MarkdownContent (JStr (str "hello"));
        Render.MarkdownContent (JStr (str "again"));
        Render.TypingIndicator ].
Proof.
  split; [reflexivity|].
  destruct (body_shows_conversation_then_indicator
              [ Change (str "hi"); Click;
                FetchSettled 0 (Fulfilled {| status := 200 |});
                JsonSettled 0 (Fulfilled (JObj [ (str "reply", JStr (str "hello")) ]));
                Change (str "again"); Click ]
              second_send_world (cells second_send_world))
    as [H _]; [reflexivity | reflexivity |].
  rewrite H. reflexivity.
Defined.

Lemma every_row_is_a_bot_or_user_row_witness :
  ui second_send_world = Mounted (cells second_send_world) /\
  length (Render.chat_body (Render.Chat (cells second_send_world))) = 5 /\
  Forall
    (fun p =>
       (Render.role p = str "bot" /\
        Render.Message p =
          {| Render.row_className := str "message-row bot";
             Render.avatar_className := str "avatar bot-avatar";
             Render.avatar_icon := Render.Bot;
             Render.bubble := if Render.typing p then Render.TypingIndicator
                              else Render.MarkdownContent (Render.text p) |})
       \/
       (Render.role p = str "user" /\
        Render.Message p =
          {| Render.row_className := str "message-row user";
             Render.avatar_className := str "avatar user-avatar";
             Render.avatar_icon := Render.User;
             Render.bubble := Render.MarkdownContent (Render.text p) |}))
    (Render.chat_body (Render.Chat (cells second_send_world))).
Proof.
  split; [reflexivity|]. split; [reflexivity|].
  apply (every_row_is_a_bot_or_user_row
           [ Change (str "hi"); Click;
             FetchSettled 0 (Fulfilled {| status := 200 |});
             JsonSettled 0 (Fulfilled (JObj [ (str "reply", JStr (str "hello")) ]));
             Change (str "again"); Click ]
           second_send_world (cells second_send_world));
    reflexivity.
Defined.

Lemma second_send_is_blocked_by_the_next_render_only_witness :
  ui typed_world = Mounted (cells typed_world) /\
  can_send (cells typed_world) /\
  call_sendMessage (call_sendMessage typed_world) = call_sendMessage typed_world /\
  requests (calls (exec (sendMessage (str "hi") false) (call_sendMessage typed_world)))
    = [ chat_request (str "hi"); chat_request (str "hi") ].
Proof.
  split; [reflexivity|]. split; [split; reflexivity|].
  destruct (second_send_is_blocked_by_the_next_render_only
              typed_world (cells typed_world) eq_refl)
    as (H1 & H2 & _); [split; reflexivity|].
  split; [exact H1 | exact H2].
Defined.
